(** * Student Finance Tracker: a shallow embedding of [script.js]

    The script keeps a list of transactions and one optional savings goal,
    stores both in [localStorage], and after every change recomputes what the
    page shows: the summary cards, the transaction table, the expense
    doughnut and the savings-goal bar.

    Amounts are JavaScript numbers, that is IEEE 754 binary64 values; they are
    modelled by Rocq's primitive [float], which is the same format with the
    same rounding.  Strings are [string]s whose characters stand for code
    units below 256.  The two platform functions the script calls on strings,
    [parseFloat] and [String.prototype.localeCompare], are parameters of the
    development. *)

From Stdlib Require Import ZArith Uint63 Lia List String Ascii Bool Floats.
From Stdlib Require Import Sorted Permutation.
Import ListNotations.

(* Decimal literals denote the nearest binary64 value, as they do in
   JavaScript. *)
Set Warnings "-inexact-float".

(** ** JavaScript numbers and the operators the script applies to them *)

Module JS.

Definition number := float.

(** [ToBoolean] of a number: [0], [-0] and [NaN] are falsy. *)
Definition truthy (x : number) : bool :=
  negb (PrimFloat.is_zero x || PrimFloat.is_nan x).

(** [x || d] on numbers. *)
Definition or_else (x d : number) : number := if truthy x then x else d.

(** [a > b] and [a <= b]; both are false as soon as an operand is [NaN]. *)
Definition gt (a b : number) : bool := (b <? a)%float.
Definition le (a b : number) : bool := (a <=? b)%float.
Definition ge (a b : number) : bool := (b <=? a)%float.

(** [Math.min(a, b)] and [Math.max(a, b)]: [NaN] when an argument is [NaN],
    and [-0] counts as smaller than [+0]. *)
Definition Math_min (a b : number) : number :=
  match (a ?= b)%float with
  | FLt => a
  | FGt => b
  | FEq => if get_sign a then a else b
  | FNotComparable => nan
  end.

Definition Math_max (a b : number) : number :=
  match (a ?= b)%float with
  | FLt => b
  | FGt => a
  | FEq => if get_sign a then b else a
  | FNotComparable => nan
  end.

(** The number a whole amount [z] denotes, for [0 <= z < 2^63] (exactly so
    below [2^53]). *)
Definition of_Z (z : Z) : number := PrimFloat.of_uint63 (Uint63.of_Z z).

(** Code units that [String.prototype.trim] strips, below 256: tab, line
    feed, vertical tab, form feed, carriage return, space, no-break space. *)
Definition is_white_space (c : ascii) : bool :=
  let n := nat_of_ascii c in
  ((9 <=? n) && (n <=? 13) || (n =? 32) || (n =? 160))%nat.

Fixpoint trim_start (s : string) : string :=
  match s with
  | EmptyString => EmptyString
  | String c r => if is_white_space c then trim_start r else s
  end.

Fixpoint rev_append (s acc : string) : string :=
  match s with
  | EmptyString => acc
  | String c r => rev_append r (String c acc)
  end.

Definition reverse (s : string) : string := rev_append s EmptyString.

Definition trim (s : string) : string :=
  reverse (trim_start (reverse (trim_start s))).

(** [a || b] on the integers a comparator returns. *)
Definition or_Z (a b : Z) : Z := if (a =? 0)%Z then b else a.

(** [Array.prototype.sort(cmp)].  ECMAScript fixes the outcome for a
    consistent comparator: the stable arrangement in which [cmp a b <= 0]
    for every [a] placed before [b].  Insertion from the right produces
    it. *)
Section Sort.
Variable A : Type.
Variable cmp : A -> A -> Z.

Fixpoint insert (x : A) (l : list A) : list A :=
  match l with
  | [] => [x]
  | y :: r => if (cmp x y <=? 0)%Z then x :: y :: r else y :: insert x r
  end.

Definition sort (l : list A) : list A := fold_right insert [] l.
End Sort.

Arguments insert {A} cmp x l.
Arguments sort {A} cmp l.

(** What [grouped[k]] can hold or give in [renderPieChart]: nothing, a
    number, a member inherited from [Object.prototype], or the text that [+]
    makes of such a member and the amounts added to it since (the member
    converted to a string, followed by the amounts in decimal). *)
Inductive value :=
| Undefined
| Num (n : number)
| Member (name : string)
| Str (member : string) (added : list number).

(** The names every browser's [Object.prototype] has: eleven functions and
    the accessor [__proto__], which reads as [Object.prototype] itself. *)
Definition Object_prototype : list string :=
  ["constructor"; "__defineGetter__"; "__defineSetter__"; "hasOwnProperty";
   "__lookupGetter__"; "__lookupSetter__"; "isPrototypeOf";
   "propertyIsEnumerable"; "toString"; "valueOf"; "__proto__";
   "toLocaleString"]%string.

Definition digit (c : ascii) : option Z :=
  let n := nat_of_ascii c in
  if ((48 <=? n) && (n <=? 57))%nat then Some (Z.of_nat (n - 48)) else None.

Fixpoint decimal (acc : Z) (s : string) : option Z :=
  match s with
  | EmptyString => Some acc
  | String c r =>
      match digit c with
      | Some d => decimal (10 * acc + d) r
      | None => None
      end
  end.

(** The array index a property key spells, if any: a decimal numeral without
    a leading zero (or [0] itself) whose value is below [2^32 - 1]. *)
Definition array_index (k : string) : option Z :=
  match k with
  | EmptyString => None
  | String c r =>
      if Ascii.eqb c "0"
      then match r with EmptyString => Some 0%Z | _ => None end
      else match decimal 0 k with
           | Some i => if (i <? 2 ^ 32 - 1)%Z then Some i else None
           | None => None
           end
  end.

(** An object made by [{}] and used as a dictionary: its own properties in
    the order [Object.keys] and [Object.values] list them, which is the array
    indices in ascending order, then the other keys in the order they were
    created. *)
Definition object := list (string * value).

Fixpoint own (o : object) (k : string) : option value :=
  match o with
  | [] => None
  | (k', v) :: r => if String.eqb k' k then Some v else own r k
  end.

(** [o[k]]: the own property, else what [Object.prototype] has under the
    name, else [undefined]. *)
Definition get (o : object) (k : string) : value :=
  match own o k with
  | Some v => v
  | None => if existsb (String.eqb k) Object_prototype then Member k
            else Undefined
  end.

Fixpoint replace (o : object) (k : string) (v : value) : object :=
  match o with
  | [] => []
  | (k', v') :: r =>
      if String.eqb k' k then (k', v) :: r else (k', v') :: replace r k v
  end.

(** A new property under the array index [i] goes before the first property
    that is not an array index below [i]. *)
Fixpoint place (i : Z) (p : string * value) (o : object) : object :=
  match o with
  | [] => [p]
  | q :: r =>
      match array_index (fst q) with
      | Some j => if (j <? i)%Z then q :: place i p r else p :: q :: r
      | None => p :: q :: r
      end
  end.

(** [o[k] = v] for a number or a string [v].  Under [__proto__] the
    assignment runs the inherited setter, which ignores a value that is
    neither an object nor [null]; under any other name it changes the own
    property or creates it. *)
Definition set (o : object) (k : string) (v : value) : object :=
  if String.eqb k "__proto__" then o
  else
    match own o k with
    | Some _ => replace o k v
    | None =>
        match array_index k with
        | Some i => place i (k, v) o
        | None => o ++ [(k, v)]
        end
    end.

(** Truthiness: a member is a function or an object, and the text of a
    member is never empty. *)
Definition truthy_value (v : value) : bool :=
  match v with
  | Undefined => false
  | Num n => truthy n
  | Member _ | Str _ _ => true
  end.

(** [v || 0] *)
Definition or_zero (v : value) : value :=
  if truthy_value v then v else Num 0%float.

(** [v + x] for a number [x]: a member is converted to its text first, and
    text takes the number in decimal at its end. *)
Definition plus (v : value) (x : number) : value :=
  match v with
  | Undefined => Num nan
  | Num n => Num (n + x)%float
  | Member m => Str m [x]
  | Str m l => Str m (l ++ [x])
  end.

Definition keys (o : object) : list string := map fst o.
Definition values (o : object) : list value := map snd o.

End JS.

Import JS.

(** ** Section 1: constants *)

(** Category options per type *)
Definition CATEGORIES_income : list string :=
  ["Gaji"; "Freelance"; "Beasiswa"; "Hadiah"; "Investasi"; "Bonus"; "Bisnis";
   "Part-time"; "Komisi"; "Transfer Masuk"; "Lainnya"]%string.

Definition CATEGORIES_expense : list string :=
  ["Makanan"; "Minuman"; "Transportasi"; "Pendidikan"; "Hiburan"; "Kos/Sewa";
   "Listrik & Air"; "Internet & Pulsa"; "Kesehatan"; "Belanja"; "Langganan";
   "Laundry"; "Parkir"; "Bensin"; "Pakaian"; "Perawatan Diri"; "Donasi";
   "Cicilan"; "Tabungan"; "Lainnya"]%string.

(** Chart colour palette (for pie chart slices) *)
Definition PIE_COLORS : list string :=
  ["#6366f1"; "#818cf8"; "#a78bfa"; "#c084fc";
   "#f472b6"; "#fb7185"; "#f87171"; "#fbbf24";
   "#34d399"; "#2dd4bf"]%string.

(** ** Section 2: state *)

Module Txn.
Record t := make
  { id : string; type : string; amount : number;
    category : string; date : string; desc : string }.
End Txn.

Module Goal.
Record t := make { name : string; target : number }.
End Goal.

(** The [localStorage] entries of the transactions and of the goal, each
    holding the value last handed to [saveJSON] ([None]: the key is
    absent). *)
Record localStorage := mkStorage
  { sft_transactions : option (list Txn.t);
    sft_goal : option Goal.t }.

(** The data the doughnut chart is built from: labels, values and slice
    colours.  The options of the chart, among them the text colour that
    follows the theme, are left out. *)
Record pie := mkPie
  { labels : list string;
    data : list value;
    backgroundColor : list string }.

(** The text of the goal note. *)
Inductive note :=
| NoteBlank
| NoteCongratulations
| NoteRemaining (remaining pct : number).

(** The part of the page the script writes, recorded as what the script
    last wrote: a text produced by [currency] as the number formatted, a
    width as the percentage assigned.  An element ignores the assignment of a
    width that is NaN and keeps the width it had; the record tells what the
    bar shows while it holds a number (see [bars_drawn]). *)
Record Dom := mkDom
  { totalBalance : number;
    totalIncome : number;
    totalExpense : number;
    balanceBar_width : number;
    alertBanner_visible : bool;
    filterType : string;
    txnBody : list Txn.t;
    tableEmpty_visible : bool;
    pieEmpty_visible : bool;
    savingsDisplay_hidden : bool;
    goalLabel : string;
    goalProgress : number * number;
    goalBar_width : number;
    goalNote : note }.

Record app := mkApp
  { transactions : list Txn.t;
    savingsGoal : option Goal.t;
    pieChart : option pie;
    storage : localStorage;
    dom : Dom }.

(** The controls of the transaction form, as the user left them. *)
Record form := mkForm
  { f_type : string; f_amount : string; f_category : string;
    f_date : string; f_desc : string }.

Definition set_transactions (l : list Txn.t) (st : app) : app :=
  mkApp l (savingsGoal st) (pieChart st) (storage st) (dom st).

Definition set_savingsGoal (g : option Goal.t) (st : app) : app :=
  mkApp (transactions st) g (pieChart st) (storage st) (dom st).

Definition set_pieChart (c : option pie) (st : app) : app :=
  mkApp (transactions st) (savingsGoal st) c (storage st) (dom st).

Definition set_storage (s : localStorage) (st : app) : app :=
  mkApp (transactions st) (savingsGoal st) (pieChart st) s (dom st).

Definition set_dom (d : Dom) (st : app) : app :=
  mkApp (transactions st) (savingsGoal st) (pieChart st) (storage st) d.

Definition write_summary (bal inc exp width : number) (alert : bool)
    (d : Dom) : Dom :=
  mkDom bal inc exp width alert (filterType d) (txnBody d)
    (tableEmpty_visible d) (pieEmpty_visible d) (savingsDisplay_hidden d)
    (goalLabel d) (goalProgress d) (goalBar_width d) (goalNote d).

Definition write_table (rows : list Txn.t) (empty : bool) (d : Dom) : Dom :=
  mkDom (totalBalance d) (totalIncome d) (totalExpense d)
    (balanceBar_width d) (alertBanner_visible d) (filterType d) rows empty
    (pieEmpty_visible d) (savingsDisplay_hidden d)
    (goalLabel d) (goalProgress d) (goalBar_width d) (goalNote d).

Definition write_pieEmpty (empty : bool) (d : Dom) : Dom :=
  mkDom (totalBalance d) (totalIncome d) (totalExpense d)
    (balanceBar_width d) (alertBanner_visible d) (filterType d) (txnBody d)
    (tableEmpty_visible d) empty (savingsDisplay_hidden d)
    (goalLabel d) (goalProgress d) (goalBar_width d) (goalNote d).

Definition write_savingsDisplay (hidden : bool) (d : Dom) : Dom :=
  mkDom (totalBalance d) (totalIncome d) (totalExpense d)
    (balanceBar_width d) (alertBanner_visible d) (filterType d) (txnBody d)
    (tableEmpty_visible d) (pieEmpty_visible d) hidden
    (goalLabel d) (goalProgress d) (goalBar_width d) (goalNote d).

Definition write_goal (label : string) (progress : number * number)
    (width : number) (n : note) (d : Dom) : Dom :=
  mkDom (totalBalance d) (totalIncome d) (totalExpense d)
    (balanceBar_width d) (alertBanner_visible d) (filterType d) (txnBody d)
    (tableEmpty_visible d) (pieEmpty_visible d) (savingsDisplay_hidden d)
    label progress width n.

Section Tracker.

(** [parseFloat]: the number a control's text denotes, [NaN] when it denotes
    none. *)
Variable parseFloat : string -> number.

(** [a.localeCompare(b)]: negative, zero or positive. *)
Variable localeCompare : string -> string -> Z.

(** ** Section 6: transaction CRUD *)

(** Save transactions to localStorage.  The store records the value handed
    to [saveJSON], which writes it down as JSON text. *)
Definition persist (st : app) : app :=
  set_storage
    (mkStorage (Some (transactions st)) (sft_goal (storage st))) st.

(** ** Section 7: calculations *)

Record totals := mkTotals
  { income : number; expense : number; balance : number }.

(** [l.reduce((s, t) => s + t.amount, 0)] *)
Definition sum_amounts (l : list Txn.t) : number :=
  fold_left (fun s t => (s + Txn.amount t)%float) l 0%float.

Definition has_type (ty : string) (t : Txn.t) : bool :=
  String.eqb (Txn.type t) ty.

Definition calcTotals (txs : list Txn.t) : totals :=
  let income := sum_amounts (filter (has_type "income") txs) in
  let expense := sum_amounts (filter (has_type "expense") txs) in
  mkTotals income expense (income - expense)%float.

(** ** Section 8: summary cards *)

(** Progress bar: % of income remaining (the value [renderSummary] binds to
    [pct]) *)
Definition balancePercent (txs : list Txn.t) : number :=
  let T := calcTotals txs in
  if gt (income T) 0%float
  then Math_max 0%float (Math_min 100%float (balance T / income T * 100)%float)
  else 0%float.

(** Warning alert (the condition [renderSummary] tests) *)
Definition overspendAlert (txs : list Txn.t) : bool :=
  let T := calcTotals txs in
  gt (expense T) (income T) && gt (income T) 0%float.

Definition renderSummary (st : app) : app :=
  let T := calcTotals (transactions st) in
  set_dom
    (write_summary (balance T) (income T) (expense T)
       (balancePercent (transactions st))
       (overspendAlert (transactions st)) (dom st))
    st.

(** ** Section 9: transaction table *)

(** [(a, b) => b.date.localeCompare(a.date) || b.id.localeCompare(a.id)] *)
Definition compareRows (a b : Txn.t) : Z :=
  or_Z (localeCompare (Txn.date b) (Txn.date a))
       (localeCompare (Txn.id b) (Txn.id a)).

(** The rows [renderTable] binds to [list]: sorted, then filtered unless the
    filter is 'all'. *)
Definition tableRows (flt : string) (txs : list Txn.t) : list Txn.t :=
  let sorted := sort compareRows txs in
  if negb (String.eqb flt "all") then filter (has_type flt) sorted
  else sorted.

Definition renderTable (st : app) : app :=
  let rows := tableRows (filterType (dom st)) (transactions st) in
  if (List.length rows =? 0)%nat
  then set_dom (write_table [] true (dom st)) st
  else set_dom (write_table rows false (dom st)) st.

(** ** Section 10: charts *)

(** [expenses.forEach(t => { grouped[t.category] =
      (grouped[t.category] || 0) + t.amount; })] from [grouped = {}] *)
Definition group_step (grouped : object) (t : Txn.t) : object :=
  set grouped (Txn.category t)
    (plus (or_zero (get grouped (Txn.category t))) (Txn.amount t)).

(** The object [renderPieChart] binds to [grouped]. *)
Definition expenseByCategory (txs : list Txn.t) : object :=
  fold_left group_step (filter (has_type "expense") txs) [].

(** Pie chart, expense categories *)
Definition renderPieChart (st : app) : app :=
  let grouped := expenseByCategory (transactions st) in
  let labels := keys grouped in
  let data := values grouped in
  if (List.length labels =? 0)%nat
  then set_pieChart None (set_dom (write_pieEmpty true (dom st)) st)
  else
    set_pieChart
      (Some (mkPie labels data (firstn (List.length labels) PIE_COLORS)))
      (set_dom (write_pieEmpty false (dom st)) st).

(** The bar chart of income against expense draws the two totals and
    touches nothing else; it is left out of the state. *)
Definition renderCharts (st : app) : app := renderPieChart st.

(** ** Section 11: savings goal *)

Definition renderGoal (st : app) : app :=
  match savingsGoal st with
  | None => set_dom (write_savingsDisplay true (dom st)) st
  | Some goal =>
      let balance := balance (calcTotals (transactions st)) in
      let saved := Math_max 0%float balance in
      let pct := Math_min 100%float (saved / Goal.target goal * 100)%float in
      let n :=
        if ge pct 100%float then NoteCongratulations
        else NoteRemaining (Goal.target goal - saved)%float pct in
      set_dom
        (write_goal (Goal.name goal) (saved, Goal.target goal) pct n
           (write_savingsDisplay false (dom st)))
        st
  end.

Definition setGoal (goalName goalAmount : string) (st : app) : app :=
  let name := trim goalName in
  let target := parseFloat goalAmount in
  if String.eqb name "" || negb (truthy target) || le target 0%float
  then st
  else
    let goal := Goal.make name target in
    renderGoal
      (set_storage (mkStorage (sft_transactions (storage st)) (Some goal))
         (set_savingsGoal (Some goal) st)).

Definition clearGoal (st : app) : app :=
  renderGoal
    (set_storage (mkStorage (sft_transactions (storage st)) None)
       (set_savingsGoal None st)).

(** ** Section 12: master refresh *)

Definition refresh (st : app) : app :=
  renderGoal (renderCharts (renderTable (renderSummary st))).

(** Add a new transaction from form data; [uid] is the identifier [uid()]
    returned. *)
Definition addTransaction (uid : string) (f : form) (st : app) : app :=
  let txn :=
    Txn.make uid (f_type f) (parseFloat (f_amount f)) (f_category f)
      (f_date f) (trim (f_desc f)) in
  refresh (persist (set_transactions (transactions st ++ [txn]) st)).

(** Delete a transaction by id *)
Definition deleteTransaction (id : string) (st : app) : app :=
  refresh
    (persist
       (set_transactions
          (filter (fun t => negb (String.eqb (Txn.id t) id))
             (transactions st))
          st)).

(** What the user does to the transaction list. *)
Inductive action :=
| Add (uid : string) (f : form)
| Delete (id : string).

Definition perform (st : app) (a : action) : app :=
  match a with
  | Add uid f => addTransaction uid f st
  | Delete id => deleteTransaction id st
  end.

Definition run (st : app) (l : list action) : app := fold_left perform l st.

End Tracker.

(** ** Notions the properties are stated with *)

(** The distinct entries of a list, each at its first occurrence. *)
Fixpoint first_seen (l : list string) : list string :=
  match l with
  | [] => []
  | c :: r => c :: filter (fun k => negb (String.eqb k c)) (first_seen r)
  end.

(** The amounts of the transactions of type [ty], added in list order on top
    of [acc]. *)
Fixpoint total_of (ty : string) (txs : list Txn.t) (acc : number) : number :=
  match txs with
  | [] => acc
  | t :: r =>
      total_of ty r
        (if String.eqb (Txn.type t) ty then (acc + Txn.amount t)%float
         else acc)
  end.

(** The values of a list added up from [0], left to right. *)
Definition sum_numbers (l : list number) : number :=
  fold_left PrimFloat.add l 0%float.

Definition Zsum (l : list Z) : Z := fold_right Z.add 0%Z l.

(** A percentage that fits the bar. *)
Definition within_0_100 (x : number) : Prop :=
  le 0%float x = true /\ le x 100%float = true.

(** [removal id l l']: [l'] is [l] without the transactions whose id is [id],
    the others kept in place. *)
Inductive removal (id : string) : list Txn.t -> list Txn.t -> Prop :=
| removal_nil : removal id [] []
| removal_drop t l l' :
    Txn.id t = id -> removal id l l' -> removal id (t :: l) l'
| removal_keep t l l' :
    Txn.id t <> id -> removal id l l' -> removal id (t :: l) (t :: l').

(** Row [a] may stand above row [b]: later date first, and on equal dates the
    greater id first. *)
Definition later_first (localeCompare : string -> string -> Z)
    (a b : Txn.t) : Prop :=
  (0 < localeCompare (Txn.date a) (Txn.date b))%Z \/
  (localeCompare (Txn.date a) (Txn.date b) = 0%Z /\
   (0 <= localeCompare (Txn.id a) (Txn.id b))%Z).

(** What makes [localeCompare] a collation: comparing the other way round
    flips the sign, and "not after" is transitive. *)
Definition collation (localeCompare : string -> string -> Z) : Prop :=
  (forall a b, Z.sgn (localeCompare b a) = (- Z.sgn (localeCompare a b))%Z) /\
  (forall a b c,
      (localeCompare a b <= 0)%Z -> (localeCompare b c <= 0)%Z ->
      (localeCompare a c <= 0)%Z).

(** Comparison by code units, the collation of ISO dates and of the ids
    [uid] makes (digits and lower-case letters). *)
Fixpoint codeCompare (a b : string) : Z :=
  match a, b with
  | EmptyString, EmptyString => 0
  | EmptyString, String _ _ => -1
  | String _ _, EmptyString => 1
  | String x a', String y b' =>
      match Nat.compare (nat_of_ascii x) (nat_of_ascii y) with
      | Lt => -1
      | Gt => 1
      | Eq => codeCompare a' b'
      end
  end%Z.



(** A value of the grouping that is the number zero. *)
Definition is_zero_value (v : value) : bool :=
  match v with
  | Num n => PrimFloat.is_zero n
  | _ => false
  end.

(** A number above zero, or a text. *)
Definition positive_value (v : value) : Prop :=
  match v with
  | Num n => gt n 0%float = true
  | Str _ _ => True
  | _ => False
  end.

(** A number above zero. *)
Definition positive_number (v : value) : Prop :=
  match v with
  | Num n => gt n 0%float = true
  | _ => False
  end.

(** The number an object holds under a key, 0 when it holds none. *)
Definition total_at (g : object) (c : string) : number :=
  match own g c with
  | Some (Num n) => n
  | _ => 0%float
  end.

(** Both widths the page records are numbers, so that they are the widths
    the two bars show. *)
Definition bars_drawn (st : app) : bool :=
  negb (PrimFloat.is_nan (balanceBar_width (dom st))) &&
  negb (PrimFloat.is_nan (goalBar_width (dom st))).

(** A whole amount above zero. *)
Definition whole_pos (z : Z) : Prop := (0 < z)%Z.


Definition sf_pos (x : spec_float) : Prop :=
  match x with
  | S754_infinity s | S754_finite s _ _ => s = false
  | _ => False
  end.

(** The specification-level value of a whole number. *)
Definition SF_of_Z (z : Z) : spec_float := binary_normalize prec emax z 0 false.

(** ** Sample pages *)

(** The page before the script has written anything, the filter on 'all'. *)
Definition blank : Dom :=
  mkDom 0%float 0%float 0%float 0%float false "all" [] false false true ""
    (0%float, 0%float) 0%float NoteBlank.

Definition page (txs : list Txn.t) (goal : option Goal.t) : app :=
  mkApp txs goal None (mkStorage None None) blank.

Definition income_of (id category date : string) (amount : number) : Txn.t :=
  Txn.make id "income" amount category date "".

Definition expense_of (id category date : string) (amount : number) : Txn.t :=
  Txn.make id "expense" amount category date "".

(** Two incomes of 1e308 and nothing else. *)
Definition two_huge_incomes : list Txn.t :=
  [income_of "a1" "Gaji" "2024-01-01" 1e308%float;
   income_of "a2" "Bonus" "2024-01-02" 1e308%float].


Definition laptop : Goal.t := Goal.make "Laptop" 10000000%float.

(** An income of 5,000,000 and an expense of 2,000,000. *)
Definition salary_and_food : list Txn.t :=
  [income_of "a1" "Gaji" "2024-01-01" 5000000%float;
   expense_of "a2" "Makanan" "2024-01-02" 2000000%float].

(** A zero expense for food. *)
Definition free_lunch : list Txn.t :=
  [expense_of "b1" "Makanan" "2024-01-05" 0%float].

(** An expense entered with the amount left blank, which [parseFloat] reads
    as NaN. *)
Definition blank_expense : list Txn.t :=
  [expense_of "b2" "Makanan" "2024-01-05" nan].

(** Three expenses in two categories whose sum depends on the order of the
    additions. *)
Definition dimes : list Txn.t :=
  [expense_of "c1" "Makanan" "2024-01-05" 0.1%float;
   expense_of "c2" "Parkir" "2024-01-05" 0.3%float;
   expense_of "c3" "Makanan" "2024-01-06" 0.7%float].

(** Two expenses under the categories 2 and 1, in this order. *)
Definition numbered : list Txn.t :=
  [expense_of "f1" "2" "2024-05-01" 20000%float;
   expense_of "f2" "1" "2024-05-02" 10000%float].

(** An expense whose category is [__proto__]. *)
Definition proto_expense : list Txn.t :=
  [expense_of "g1" "__proto__" "2024-05-03" 5000%float].

(** An expense whose category is [constructor]. *)
Definition constructor_expense : list Txn.t :=
  [expense_of "g2" "constructor" "2024-05-04" 5000%float].

(** An expense of 5 and a refund entered as an expense of -5. *)
Definition refund : list Txn.t :=
  [expense_of "h1" "Belanja" "2024-05-05" 5%float;
   expense_of "h2" "Belanja" "2024-05-06" (-5)%float].

(** A month of whole amounts. *)
Definition month : list Txn.t :=
  [income_of "d1" "Gaji" "2024-02-01" 5000000%float;
   expense_of "d2" "Makanan" "2024-02-02" 2000000%float;
   expense_of "d3" "Parkir" "2024-02-03" 500000%float;
   expense_of "d4" "Makanan" "2024-02-04" 1500000%float].


(** ** The rest of the script: theme, category dropdown, small handlers *)

(** *** Section 4: theme toggle

    The class of [body] and the stored preference stand beside the tracker's
    state. *)
Record themed := mkThemed
  { body_light_mode : bool;
    sft_theme : option string;
    tracker : app }.

Definition applyTheme (mode : string) (s : themed) : themed :=
  mkThemed (String.eqb mode "light") (Some mode) (tracker s).

(** Redraws the charts after the change, as the script does. *)
Definition toggleTheme (s : themed) : themed :=
  let next := (if body_light_mode s then "dark" else "light")%string in
  let s' := applyTheme next s in
  mkThemed (body_light_mode s') (sft_theme s') (renderCharts (tracker s')).

(** [applyTheme(localStorage.getItem(STORAGE_KEYS.THEME) || 'dark')], the
    theme part of the start-up handler: an absent key reads as [null], and
    the empty string is falsy as well. *)
Definition loadTheme (s : themed) : themed :=
  let savedTheme :=
    match sft_theme s with
    | Some v => if String.eqb v "" then "dark"%string else v
    | None => "dark"%string
    end in
  applyTheme savedTheme s.

(** *** Section 5: category dropdown *)

(** [CATEGORIES[type]] as the loop uses it: the object has the two keys
    'income' and 'expense'.  (For a [type] naming a member of
    [Object.prototype] the script stops at [forEach], after the placeholder
    is written and before any option is added, so that the control holds
    what it holds for [None].) *)
Definition CATEGORIES (type : string) : option (list string) :=
  if String.eqb type "income" then Some CATEGORIES_income
  else if String.eqb type "expense" then Some CATEGORIES_expense
  else None.

(** The values of the options the category control holds afterwards: the
    disabled placeholder, whose value is empty, then one option per category
    of the type. *)
Definition populateCategories (type : string) : list string :=
  ""%string ::
  match (if String.eqb type "" then None else CATEGORIES type) with
  | Some cats => cats
  | None => []
  end.

(** *** Section 13: the two one-line handlers *)

Definition write_alert (visible : bool) (d : Dom) : Dom :=
  mkDom (totalBalance d) (totalIncome d) (totalExpense d)
    (balanceBar_width d) visible (filterType d) (txnBody d)
    (tableEmpty_visible d) (pieEmpty_visible d) (savingsDisplay_hidden d)
    (goalLabel d) (goalProgress d) (goalBar_width d) (goalNote d).

(** Alert close: [dom.alertBanner.classList.remove('visible')] *)
Definition alertClose (st : app) : app :=
  set_dom (write_alert false (dom st)) st.

Definition write_filter (value : string) (d : Dom) : Dom :=
  mkDom (totalBalance d) (totalIncome d) (totalExpense d)
    (balanceBar_width d) (alertBanner_visible d) value (txnBody d)
    (tableEmpty_visible d) (pieEmpty_visible d) (savingsDisplay_hidden d)
    (goalLabel d) (goalProgress d) (goalBar_width d) (goalNote d).

(** Filter change: the user picks [value] in the filter control, whose
    'change' event runs [renderTable]. *)
Definition filterChange (localeCompare : string -> string -> Z)
    (value : string) (st : app) : app :=
  renderTable localeCompare (set_dom (write_filter value (dom st)) st).

(** An income of 1,000,000 against an expense of 1,500,000. *)
Definition overdrawn : list Txn.t :=
  [income_of "e1" "Gaji" "2024-04-01" 1000000%float;
   expense_of "e2" "Kos/Sewa" "2024-04-02" 1500000%float].

(** ** More notions *)

(** The sign bit of a specification that is not NaN. *)
Definition sf_signed (s : bool) (x : spec_float) : Prop :=
  match x with
  | S754_nan => False
  | S754_zero s' | S754_infinity s' | S754_finite s' _ _ => s' = s
  end.

(** Below zero: negative and not a zero. *)
Definition sf_neg (x : spec_float) : Prop :=
  match x with
  | S754_infinity s | S754_finite s _ _ => s = true
  | _ => False
  end.

Definition has_category (c : string) (t : Txn.t) : bool :=
  String.eqb (Txn.category t) c.

Definition ids (txs : list Txn.t) : list string := map Txn.id txs.

(** Replacing the list and storing it, as [addTransaction] and
    [deleteTransaction] do before they refresh. *)
Definition store (l : list Txn.t) (st : app) : app :=
  persist (set_transactions l st).

(** Replacing the goal in memory and in storage, as [setGoal] and
    [clearGoal] do before they draw the panel. *)
Definition putGoal (g : option Goal.t) (st : app) : app :=
  set_storage (mkStorage (sft_transactions (storage st)) g)
    (set_savingsGoal g st).

(** The page with the four texts of the goal panel wiped. *)
Definition goal_texts_blanked (st : app) : app :=
  set_dom (write_goal "" (0%float, 0%float) 0%float NoteBlank (dom st)) st.

(** What [parseFloat] reads from a string of decimal digits, and [NaN] for
    the other strings; the samples enter amounts this way. *)
Fixpoint parseWhole_from (acc : Z) (s : string) : option Z :=
  match s with
  | EmptyString => Some acc
  | String c r =>
      let n := nat_of_ascii c in
      if ((48 <=? n) && (n <=? 57))%nat
      then parseWhole_from (10 * acc + Z.of_nat (n - 48)) r
      else None
  end.

Definition parseWhole (s : string) : number :=
  match s with
  | EmptyString => nan
  | _ => match parseWhole_from 0 s with Some z => of_Z z | None => nan end
  end.

(** A form filled in for a book of 150,000. *)
Definition book_form : form :=
  mkForm "expense" "150000" "Pendidikan" "2024-02-10" " Buku ".

(** The chart of [month]. *)
Definition month_chart : pie :=
  mkPie ["Makanan"; "Parkir"]%string [Num 3500000%float; Num 500000%float]
    (firstn 2 PIE_COLORS).

(** ** Facts about binary64 arithmetic

    The operations of [float] are specified by [SpecFloat]; the lemmas below
    read the specification. *)

(** *** Shifting and rounding never produce [NaN] *)

Lemma iter_pos_iter (A : Type) (f : A -> A) (n : positive) (x : A) :
  SpecFloat.iter_pos f n x = Pos.iter f x n.
Proof.
  revert x; induction n as [n IH|n IH|]; intro x; simpl.
  - rewrite !IH. now rewrite <- !Pos.iter_swap.
  - now rewrite !IH.
  - reflexivity.
Qed.

Lemma shr_1_nonneg mrs : (0 <= shr_m mrs)%Z -> (0 <= shr_m (shr_1 mrs))%Z.
Proof.
  destruct mrs as [m r s]; simpl.
  destruct m as [|[p|p|]|[p|p|]]; simpl; lia.
Qed.

Lemma shr_nonneg mrs e n :
  (0 <= shr_m mrs)%Z -> (0 <= shr_m (fst (shr mrs e n)))%Z.
Proof.
  intro H. destruct n as [|p|p]; simpl; trivial.
  rewrite iter_pos_iter. apply Pos.iter_invariant; auto using shr_1_nonneg.
Qed.

Lemma shr_fexp_nonneg m e l :
  (0 <= m)%Z -> (0 <= shr_m (fst (shr_fexp prec emax m e l)))%Z.
Proof.
  intro H. unfold shr_fexp. apply shr_nonneg.
  destruct l as [|[]]; simpl; assumption.
Qed.

Lemma round_nearest_even_nonneg m l :
  (0 <= m)%Z -> (0 <= round_nearest_even m l)%Z.
Proof.
  intro H. destruct l as [|[]]; simpl; try lia.
  destruct (Z.even m); lia.
Qed.

Lemma binary_round_aux_not_nan s m e l :
  (0 <= m)%Z -> binary_round_aux prec emax s m e l <> S754_nan.
Proof.
  intro H. unfold binary_round_aux.
  pose proof (shr_fexp_nonneg m e l H) as H1.
  destruct (shr_fexp prec emax m e l) as [mrs' e'] eqn:E1. simpl in H1.
  pose proof (round_nearest_even_nonneg _ (loc_of_shr_record mrs') H1) as H2.
  pose proof (shr_fexp_nonneg _ e' loc_Exact H2) as H3.
  destruct (shr_fexp prec emax _ e' loc_Exact) as [mrs'' e''] eqn:E2.
  simpl in H3.
  destruct (shr_m mrs'') as [|p|p]; try discriminate; try lia.
  destruct (e'' <=? emax - prec)%Z; discriminate.
Qed.

Lemma binary_normalize_not_nan m e s :
  binary_normalize prec emax m e s <> S754_nan.
Proof.
  destruct m as [|p|p]; simpl; try discriminate;
    unfold binary_round;
    destruct (shl_align _ _ _) as [mz ez];
    apply binary_round_aux_not_nan; lia.
Qed.

Lemma SFcompare_antisym x y c :
  SFcompare x y = Some c -> SFcompare y x = Some (CompOpp c).
Proof.
  destruct x as [sx|sx| |sx mx ex], y as [sy|sy| |sy my ey]; simpl;
    try discriminate;
    try (destruct sx; try destruct sy; intro H; inversion H; reflexivity).
  change (Pos.compare_cont Eq mx my) with (Pos.compare mx my).
  change (Pos.compare_cont Eq my mx) with (Pos.compare my mx).
  rewrite (Z.compare_antisym ex ey), (Pos.compare_antisym mx my).
  destruct sx, sy; intro H; inversion H; clear H; try reflexivity;
    destruct (ex ?= ey)%Z; simpl; try reflexivity;
    destruct (mx ?= my)%positive; reflexivity.
Qed.

Lemma SFcompare_refl x : x <> S754_nan -> SFcompare x x = Some Eq.
Proof.
  destruct x as [s|s| |s m e]; simpl; try congruence.
  - destruct s; reflexivity.
  - intros _. rewrite Z.compare_refl.
    replace (Pos.compare_cont Eq m m) with Eq
      by (symmetry; apply Pos.compare_cont_refl).
    destruct s; reflexivity.
Qed.

(** *** Primitive floats through their specification *)

Local Open Scope float_scope.

Lemma SF_zero : Prim2SF 0 = S754_zero false. Proof. reflexivity. Qed.
Lemma SF_hundred : Prim2SF 100 = S754_finite false 7036874417766400 (-46).
Proof. reflexivity. Qed.
Lemma SF_infinity : Prim2SF infinity = S754_infinity false.
Proof. reflexivity. Qed.
Lemma SF_nan : Prim2SF nan = S754_nan. Proof. reflexivity. Qed.

Lemma is_nan_SF x : is_nan x = true <-> Prim2SF x = S754_nan.
Proof.
  unfold is_nan. rewrite eqb_spec. unfold SFeqb.
  destruct (Prim2SF x) as [s|s| |s m e] eqn:E;
    try (rewrite SFcompare_refl by discriminate; simpl;
         split; intro; discriminate).
  simpl. tauto.
Qed.

Lemma not_nan_SF x : is_nan x = false <-> Prim2SF x <> S754_nan.
Proof.
  rewrite <- is_nan_SF. destruct (is_nan x); split; congruence.
Qed.

Lemma is_nan_match x :
  PrimFloat.is_nan x
  = match Prim2SF x with S754_nan => true | _ => false end.
Proof.
  destruct (PrimFloat.is_nan x) eqn:E.
  - apply is_nan_SF in E. now rewrite E.
  - apply not_nan_SF in E. destruct (Prim2SF x); congruence.
Qed.


Lemma gt_zero_SF x : gt x 0 = true <-> sf_pos (Prim2SF x).
Proof.
  unfold gt. rewrite ltb_spec, SF_zero. unfold SFltb.
  destruct (Prim2SF x) as [s|[]| |[] m e]; simpl;
    split; intro; try discriminate; try tauto; try reflexivity.
Qed.

Lemma le_reflexive x : is_nan x = false -> le x x = true.
Proof.
  rewrite not_nan_SF. intro H. unfold le. rewrite leb_spec. unfold SFleb.
  now rewrite SFcompare_refl.
Qed.

Lemma compare_cases a b :
  match (a ?= b) with
  | FEq => SFcompare (Prim2SF a) (Prim2SF b) = Some Eq
  | FLt => SFcompare (Prim2SF a) (Prim2SF b) = Some Lt
  | FGt => SFcompare (Prim2SF a) (Prim2SF b) = Some Gt
  | FNotComparable => SFcompare (Prim2SF a) (Prim2SF b) = None
  end.
Proof.
  rewrite compare_spec.
  destruct (SFcompare (Prim2SF a) (Prim2SF b)) as [[]|]; reflexivity.
Qed.

Lemma SFcompare_None x y :
  SFcompare x y = None -> x = S754_nan \/ y = S754_nan.
Proof.
  destruct x as [sx|sx| |sx mx ex], y as [sy|sy| |sy my ey]; simpl;
    intro H; try discriminate; auto.
Qed.

Lemma Math_min_not_nan a b :
  is_nan a = false -> is_nan b = false -> is_nan (Math_min a b) = false.
Proof.
  intros Ha Hb. unfold Math_min. pose proof (compare_cases a b) as C.
  destruct (a ?= b); trivial.
  - destruct (get_sign a); trivial.
  - apply SFcompare_None in C. rewrite not_nan_SF in Ha, Hb. tauto.
Qed.

Lemma Math_max_not_nan a b :
  is_nan a = false -> is_nan b = false -> is_nan (Math_max a b) = false.
Proof.
  intros Ha Hb. unfold Math_max. pose proof (compare_cases a b) as C.
  destruct (a ?= b); trivial.
  - destruct (get_sign a); trivial.
  - apply SFcompare_None in C. rewrite not_nan_SF in Ha, Hb. tauto.
Qed.

Lemma Math_min_le_l a b :
  is_nan a = false -> is_nan b = false -> le (Math_min a b) a = true.
Proof.
  intros Ha Hb. unfold Math_min. pose proof (compare_cases a b) as C.
  destruct (a ?= b).
  - destruct (get_sign a); [now apply le_reflexive|].
    apply SFcompare_antisym in C. unfold le. rewrite leb_spec. unfold SFleb.
    now rewrite C.
  - now apply le_reflexive.
  - apply SFcompare_antisym in C. unfold le. rewrite leb_spec. unfold SFleb.
    now rewrite C.
  - apply SFcompare_None in C. rewrite not_nan_SF in Ha, Hb. tauto.
Qed.

Lemma Math_max_ge_l a b :
  is_nan a = false -> is_nan b = false -> le a (Math_max a b) = true.
Proof.
  intros Ha Hb. unfold Math_max. pose proof (compare_cases a b) as C.
  destruct (a ?= b).
  - destruct (get_sign a); [|now apply le_reflexive].
    unfold le. rewrite leb_spec. unfold SFleb. now rewrite C.
  - unfold le. rewrite leb_spec. unfold SFleb. now rewrite C.
  - now apply le_reflexive.
  - apply SFcompare_None in C. rewrite not_nan_SF in Ha, Hb. tauto.
Qed.


Lemma Math_max_choice a b :
  is_nan a = false -> is_nan b = false ->
  Math_max a b = a \/ Math_max a b = b.
Proof.
  intros Ha Hb. unfold Math_max. pose proof (compare_cases a b) as C.
  destruct (a ?= b); auto.
  - destruct (get_sign a); auto.
  - apply SFcompare_None in C. rewrite not_nan_SF in Ha, Hb. tauto.
Qed.

(** [Math.max(0, Math.min(100, v))] lies in [0, 100] unless [v] is [NaN]. *)
Lemma clamp_range v :
  is_nan v = false ->
  let r := Math_max 0 (Math_min 100 v) in
  le 0 r = true /\ le r 100 = true.
Proof.
  intros Hv r.
  assert (H100 : is_nan 100 = false) by reflexivity.
  assert (H0 : is_nan 0 = false) by reflexivity.
  pose proof (Math_min_not_nan 100 v H100 Hv) as Hm.
  split.
  - now apply Math_max_ge_l.
  - destruct (Math_max_choice 0 (Math_min 100 v) H0 Hm) as [E|E];
      unfold r; rewrite E.
    + reflexivity.
    + now apply Math_min_le_l.
Qed.

Lemma Math_min_nan a b : PrimFloat.is_nan b = true -> Math_min a b = nan.
Proof.
  intro H. apply is_nan_SF in H. unfold Math_min.
  pose proof (compare_cases a b) as C. rewrite H in C.
  destruct (a ?= b); trivial; destruct (Prim2SF a); discriminate.
Qed.

Lemma Math_max_nan a b : PrimFloat.is_nan b = true -> Math_max a b = nan.
Proof.
  intro H. apply is_nan_SF in H. unfold Math_max.
  pose proof (compare_cases a b) as C. rewrite H in C.
  destruct (a ?= b); trivial; destruct (Prim2SF a); discriminate.
Qed.

Lemma binary_round_aux_sign s m e l :
  (0 <= m)%Z ->
  match binary_round_aux prec emax s m e l with
  | S754_zero s' | S754_infinity s' | S754_finite s' _ _ => s' = s
  | S754_nan => False
  end.
Proof.
  intro H. pose proof (binary_round_aux_not_nan s m e l H) as N.
  revert N. unfold binary_round_aux.
  destruct (shr_fexp prec emax m e l) as [mrs' e'].
  destruct (shr_fexp prec emax _ e' loc_Exact) as [mrs'' e''].
  destruct (shr_m mrs'') as [|p|p]; try congruence; try reflexivity.
  destruct (e'' <=? emax - prec)%Z; reflexivity.
Qed.

Lemma SFsub_not_nan x y :
  x <> S754_nan -> y <> S754_nan ->
  (forall s, x <> S754_infinity s) ->
  SFsub prec emax x y <> S754_nan.
Proof.
  intros Hx Hy Hi.
  destruct x as [sx|sx| |sx mx ex], y as [sy|sy| |sy my ey]; simpl;
    try congruence; try discriminate;
    try (destruct sx, sy; discriminate);
    try (exfalso; eapply Hi; reflexivity).
  apply binary_normalize_not_nan.
Qed.

Lemma div_core_nonneg m1 e1 m2 e2 :
  let '(q, _, _) := SFdiv_core_binary prec emax (Z.pos m1) e1 (Z.pos m2) e2 in
  (0 <= q)%Z.
Proof.
  unfold SFdiv_core_binary.
  set (s := (e1 - e2 - _)%Z).
  set (m' := match s with Z0 => Z.pos m1 | Z.pos _ => Z.shiftl (Z.pos m1) s
             | Z.neg _ => 0%Z end).
  assert (Hm : (0 <= m')%Z).
  { unfold m'. destruct s; try lia. apply Z.shiftl_nonneg. lia. }
  pose proof (Z_div_mod m' (Z.pos m2) (eq_refl _)) as D.
  destruct (Z.div_eucl m' (Z.pos m2)) as [q r].
  destruct D as [D1 D2]. nia.
Qed.

Lemma SFdiv_finite_not_nan x s m e :
  x <> S754_nan -> SFdiv prec emax x (S754_finite s m e) <> S754_nan.
Proof.
  intros Hx.
  destruct x as [sx|sx| |sx mx ex]; simpl; try congruence; try discriminate.
  pose proof (div_core_nonneg mx ex m e) as Q.
  destruct (SFdiv_core_binary _ _ _ _ _ _) as [[q e'] l].
  now apply binary_round_aux_not_nan.
Qed.

Lemma SFmul_finite_not_nan x s m e :
  x <> S754_nan -> SFmul prec emax x (S754_finite s m e) <> S754_nan.
Proof.
  intros Hx.
  destruct x as [sx|sx| |sx mx ex]; simpl; try congruence; try discriminate.
  apply binary_round_aux_not_nan. lia.
Qed.



(** *** Rounding that loses nothing *)

Local Close Scope float_scope.
Local Open Scope Z_scope.

Lemma digits2_bounds p :
  2 ^ (Z.pos (digits2_pos p) - 1) <= Z.pos p < 2 ^ Z.pos (digits2_pos p).
Proof.
  induction p as [p IH|p IH|]; simpl digits2_pos.
  - rewrite Pos2Z.inj_succ.
    replace (Z.succ (Z.pos (digits2_pos p)) - 1)
      with (Z.succ (Z.pos (digits2_pos p) - 1)) by lia.
    rewrite !Z.pow_succ_r by lia. lia.
  - rewrite Pos2Z.inj_succ.
    replace (Z.succ (Z.pos (digits2_pos p)) - 1)
      with (Z.succ (Z.pos (digits2_pos p) - 1)) by lia.
    rewrite !Z.pow_succ_r by lia. lia.
  - simpl. lia.
Qed.

Lemma digits2_unique p k :
  2 ^ (k - 1) <= Z.pos p < 2 ^ k -> Z.pos (digits2_pos p) = k.
Proof.
  intros [L U]. pose proof (digits2_bounds p) as [L' U'].
  set (d := Z.pos (digits2_pos p)) in *.
  assert (0 < d) by (unfold d; lia).
  destruct (Z.lt_trichotomy d k) as [C|[C|C]]; trivial; exfalso.
  - assert (2 ^ d <= 2 ^ (k - 1)) by (apply Z.pow_le_mono_r; lia). lia.
  - assert (0 <= k \/ k < 0) as [K|K] by lia.
    + assert (2 ^ k <= 2 ^ (d - 1)) by (apply Z.pow_le_mono_r; lia). lia.
    + rewrite (Z.pow_neg_r 2 k K) in U. lia.
Qed.

Lemma digits2_shift q j m :
  0 <= j -> Z.pos m = Z.pos q * 2 ^ j ->
  Z.pos (digits2_pos m) = Z.pos (digits2_pos q) + j.
Proof.
  intros Hj Hm. apply digits2_unique. rewrite Hm.
  pose proof (digits2_bounds q) as [L U].
  replace (Z.pos (digits2_pos q) + j - 1)
    with ((Z.pos (digits2_pos q) - 1) + j) by lia.
  rewrite !Z.pow_add_r by lia.
  assert (0 < 2 ^ j) by (apply Z.pow_pos_nonneg; lia).
  split; nia.
Qed.

Lemma iter_shr_1_exact p m :
  SpecFloat.iter_pos shr_1 p
    (Build_shr_record (Z.pos (shift_pos p m)) false false)
  = Build_shr_record (Z.pos m) false false.
Proof.
  rewrite iter_pos_iter. unfold shift_pos.
  induction p as [|p IH] using Pos.peano_ind.
  - reflexivity.
  - rewrite Pos.iter_succ_r, Pos.iter_succ. simpl. exact IH.
Qed.

Lemma shr_exact m' n m e :
  0 <= n -> Z.pos m = Z.pos m' * 2 ^ n ->
  shr (Build_shr_record (Z.pos m) false false) e n
  = (Build_shr_record (Z.pos m') false false, e + n).
Proof.
  intros Hn Hm. destruct n as [|p|p]; try lia.
  - simpl. rewrite Z.add_0_r. f_equal. f_equal. lia.
  - unfold shr. f_equal.
    assert (m = shift_pos p m') as ->.
    { apply Pos2Z.inj. rewrite shift_pos_correct, Hm.
      rewrite Z.pow_pos_fold. lia. }
    apply iter_shr_1_exact.
Qed.

Lemma binary_round_aux_exact m' n m e :
  0 <= n -> Z.pos m = Z.pos m' * 2 ^ n ->
  Z.pos (digits2_pos m') = prec ->
  emin <= e + n <= emax - prec ->
  binary_round_aux prec emax false (Z.pos m) e loc_Exact
  = S754_finite false m' (e + n).
Proof.
  intros Hn Hm Hd He.
  pose proof (digits2_shift m' n m Hn Hm) as Dm.
  unfold binary_round_aux, shr_fexp, Zdigits2, fexp, SpecFloat.emin in *.
  rewrite Dm, Hd. unfold prec, emax in *.
  replace (Z.max (53 + n + e - 53) (3 - 1024 - 53) - e) with n by lia.
  simpl shr_record_of_loc.
  rewrite (shr_exact m' n m e Hn Hm). simpl shr_m. simpl loc_of_shr_record.
  simpl round_nearest_even. cbv iota. rewrite Hd.
  replace (Z.max (53 + (e + n) - 53) (3 - 1024 - 53) - (e + n)) with 0 by lia.
  simpl.
  destruct (Z.leb_spec (e + n) 971); [reflexivity|lia].
Qed.

Lemma binary_round_exact q j m e :
  0 <= j -> Z.pos m = Z.pos q * 2 ^ j ->
  Z.pos (digits2_pos q) <= prec ->
  emin <= e + j + Z.pos (digits2_pos q) - prec <= emax - prec ->
  binary_round prec emax false m e
  = S754_finite false (Z.to_pos (Z.pos q * 2 ^ (prec - Z.pos (digits2_pos q))))
      (e + j + Z.pos (digits2_pos q) - prec).
Proof.
  intros Hj Hm Hd He.
  pose proof (digits2_shift q j m Hj Hm) as Dm.
  set (dq := Z.pos (digits2_pos q)) in *.
  set (m' := Z.to_pos (Z.pos q * 2 ^ (prec - dq))).
  assert (P : 0 < 2 ^ (prec - dq)) by (apply Z.pow_pos_nonneg; lia).
  assert (Hm' : Z.pos m' = Z.pos q * 2 ^ (prec - dq))
    by (unfold m'; rewrite Z2Pos.id; nia).
  assert (Dm' : Z.pos (digits2_pos m') = prec).
  { rewrite (digits2_shift q (prec - dq) m'); fold dq; try lia. }
  unfold binary_round, fexp, shl_align. rewrite Dm. fold dq.
  unfold SpecFloat.emin, prec, emax in *.
  replace (Z.max (dq + j + e - 53) (3 - 1024 - 53))
    with (dq + j + e - 53) by lia.
  destruct (dq + j + e - 53 - e) as [|d|d] eqn:D.
  - replace (e + j + dq - 53) with (e + (dq + j - 53)) by lia.
    apply binary_round_aux_exact; trivial;
      try (unfold SpecFloat.emin, prec, emax; lia).
    rewrite Hm', Hm. replace (dq + j - 53) with 0 by lia.
    replace (53 - dq) with j by lia. lia.
  - replace (e + j + dq - 53) with (e + (dq + j - 53)) by lia.
    apply binary_round_aux_exact; trivial;
      try (unfold SpecFloat.emin, prec, emax; lia).
    rewrite Hm', Hm, <- Z.mul_assoc, <- Z.pow_add_r by lia.
    f_equal. f_equal. lia.
  - replace (e + j + dq - 53) with ((dq + j + e - 53) + 0) by lia.
    assert (Pos.iter xO m d = m') as ->.
    { apply Pos2Z.inj. fold (shift_pos d m).
      rewrite shift_pos_correct, Z.pow_pos_fold, Hm', Hm.
      replace (53 - dq) with (j + Z.pos d) by lia.
      rewrite Z.pow_add_r by lia. lia. }
    apply binary_round_aux_exact; trivial;
      try (unfold SpecFloat.emin, prec, emax; lia).
Qed.

(** *** Whole numbers below [2^53] *)

Lemma digits2_le_prec p : Z.pos p < 2 ^ 53 -> Z.pos (digits2_pos p) <= prec.
Proof.
  intro H. pose proof (digits2_bounds p) as [L _].
  destruct (Z.le_gt_cases (Z.pos (digits2_pos p)) 53) as [C|C]; trivial.
  assert (2 ^ 53 <= 2 ^ (Z.pos (digits2_pos p) - 1))
    by (apply Z.pow_le_mono_r; lia).
  lia.
Qed.

Lemma SF_of_Z_pos p :
  Z.pos p < 2 ^ 53 ->
  SF_of_Z (Z.pos p)
  = S754_finite false (Z.to_pos (Z.pos p * 2 ^ (prec - Z.pos (digits2_pos p))))
      (Z.pos (digits2_pos p) - prec).
Proof.
  intro H. pose proof (digits2_le_prec p H) as D.
  unfold SF_of_Z, binary_normalize.
  rewrite (binary_round_exact p 0 p 0); try lia.
  - f_equal.
  - unfold SpecFloat.emin, prec, emax in *. lia.
Qed.

Lemma shl_align_fst m e e' :
  e' <= e -> Z.pos (fst (shl_align m e e')) = Z.pos m * 2 ^ (e - e').
Proof.
  intro H. unfold shl_align.
  destruct (e' - e) as [|d|d] eqn:D; simpl fst; try lia.
  - replace (e - e') with 0 by lia. lia.
  - fold (shift_pos d m). rewrite shift_pos_correct, Z.pow_pos_fold.
    replace (e - e') with (Z.pos d) by lia. lia.
Qed.

Lemma SFadd_of_Z a b :
  0 <= a -> 0 <= b -> a + b < 2 ^ 53 ->
  SFadd prec emax (SF_of_Z a) (SF_of_Z b) = SF_of_Z (a + b).
Proof.
  intros Ha Hb Hab.
  destruct a as [|p|p]; try lia; destruct b as [|q|q]; try lia.
  - reflexivity.
  - simpl Z.add. rewrite SF_of_Z_pos by lia. reflexivity.
  - simpl Z.add. rewrite SF_of_Z_pos by lia. reflexivity.
  - rewrite (SF_of_Z_pos p), (SF_of_Z_pos q) by lia.
    pose proof (digits2_le_prec p ltac:(lia)) as Dp.
    pose proof (digits2_le_prec q ltac:(lia)) as Dq.
    set (dp := Z.pos (digits2_pos p)) in *.
    set (dq := Z.pos (digits2_pos q)) in *.
    assert (0 < dp) by (unfold dp; lia). assert (0 < dq) by (unfold dq; lia).
    unfold prec in Dp, Dq.
    set (mp := Z.to_pos _). set (mq := Z.to_pos _).
    assert (Hp : Z.pos mp = Z.pos p * 2 ^ (53 - dp)).
    { unfold mp, prec. rewrite Z2Pos.id; trivial.
      assert (0 < 2 ^ (53 - dp)) by (apply Z.pow_pos_nonneg; lia). nia. }
    assert (Hq : Z.pos mq = Z.pos q * 2 ^ (53 - dq)).
    { unfold mq, prec. rewrite Z2Pos.id; trivial.
      assert (0 < 2 ^ (53 - dq)) by (apply Z.pow_pos_nonneg; lia). nia. }
    unfold SFadd. set (ez := Z.min (dp - prec) (dq - prec)).
    unfold cond_Zopp.
    assert (Ez : ez <= 0) by (unfold ez, prec; lia).
    assert (Sp : Z.pos (fst (shl_align mp (dp - prec) ez))
                 = Z.pos p * 2 ^ (- ez)).
    { rewrite shl_align_fst by (unfold ez; lia). rewrite Hp.
      rewrite <- Z.mul_assoc, <- Z.pow_add_r by (unfold ez, prec; lia).
      f_equal. f_equal. unfold prec. lia. }
    assert (Sq : Z.pos (fst (shl_align mq (dq - prec) ez))
                 = Z.pos q * 2 ^ (- ez)).
    { rewrite shl_align_fst by (unfold ez; lia). rewrite Hq.
      rewrite <- Z.mul_assoc, <- Z.pow_add_r by (unfold ez, prec; lia).
      f_equal. f_equal. unfold prec. lia. }
    rewrite <- Pos2Z.inj_add.
    set (s := (fst _ + fst _)%positive).
    assert (Hs : Z.pos s = Z.pos (p + q) * 2 ^ (- ez)).
    { unfold s. rewrite Pos2Z.inj_add, Sp, Sq. lia. }
    unfold binary_normalize.
    pose proof (digits2_le_prec (p + q) ltac:(lia)) as Dpq.
    pose proof (digits2_bounds (p + q)) as Bpq.
    rewrite (binary_round_exact (p + q) (- ez) s ez); try lia.
    + change (Z.pos p + Z.pos q) with (Z.pos (p + q)).
      rewrite (SF_of_Z_pos (p + q)) by lia. f_equal. lia.
    + unfold SpecFloat.emin, prec, emax in *. lia.
Qed.

(** *** Sums of positive numbers stay positive *)

Lemma shr_1_m mrs : 0 <= shr_m mrs -> shr_m (shr_1 mrs) = shr_m mrs / 2.
Proof.
  destruct mrs as [m r s]; simpl. intro H.
  destruct m as [|[p|p|]|p]; cbn [shr_m]; try lia; try reflexivity.
  - apply Z.div_unique with 1; lia.
  - apply Z.div_unique with 0; lia.
Qed.

Lemma iter_shr_1_m p mrs :
  0 <= shr_m mrs ->
  shr_m (Pos.iter shr_1 mrs p) = shr_m mrs / 2 ^ Z.pos p.
Proof.
  intro H. induction p as [|p IH] using Pos.peano_ind.
  - simpl Pos.iter. rewrite shr_1_m by trivial. reflexivity.
  - rewrite Pos.iter_succ, shr_1_m.
    + rewrite IH, Pos2Z.inj_succ, Z.pow_succ_r by lia.
      rewrite Z.div_div by (try apply Z.pow_pos_nonneg; lia).
      f_equal. lia.
    + rewrite IH. apply Z.div_pos; [trivial | apply Z.pow_pos_nonneg; lia].
Qed.

Lemma shr_fexp_pos m e l :
  0 < m -> emin <= e ->
  0 < shr_m (fst (shr_fexp prec emax m e l)) /\
  emin <= snd (shr_fexp prec emax m e l).
Proof.
  intros Hm He. unfold shr_fexp, shr.
  destruct m as [|p|p]; try lia. simpl Zdigits2.
  pose proof (digits2_bounds p) as [L U].
  set (d := Z.pos (digits2_pos p)) in *.
  assert (Hd : 0 < d) by (unfold d; lia).
  assert (M : shr_m (shr_record_of_loc (Z.pos p) l) = Z.pos p)
    by (destruct l as [|[]]; reflexivity).
  unfold fexp, SpecFloat.emin, prec, emax in *.
  destruct (Z.max (d + e - 53) (3 - 1024 - 53) - e) as [|n|n] eqn:N;
    simpl fst; simpl snd; rewrite ?M; try (split; lia).
  rewrite iter_pos_iter, iter_shr_1_m by (rewrite M; lia). rewrite M.
  split; [|lia].
  assert (Z.pos n <= d - 1) by lia.
  assert (2 ^ Z.pos n <= 2 ^ (d - 1)) by (apply Z.pow_le_mono_r; lia).
  apply Z.div_str_pos. split; [apply Z.pow_pos_nonneg; lia | lia].
Qed.

Lemma binary_round_aux_pos m e l :
  0 < m -> emin <= e -> sf_pos (binary_round_aux prec emax false m e l).
Proof.
  intros Hm He. unfold binary_round_aux.
  destruct (shr_fexp_pos m e l Hm He) as [P1 E1].
  destruct (shr_fexp prec emax m e l) as [mrs' e']. simpl in P1, E1.
  assert (P2 : 0 < round_nearest_even (shr_m mrs') (loc_of_shr_record mrs')).
  { destruct (loc_of_shr_record mrs') as [|[]]; simpl; try lia.
    destruct (Z.even (shr_m mrs')); lia. }
  destruct (shr_fexp_pos _ e' loc_Exact P2 E1) as [P3 _].
  destruct (shr_fexp prec emax _ e' loc_Exact) as [mrs'' e'']. simpl in P3.
  destruct (shr_m mrs'') as [|q|q]; try lia.
  destruct (e'' <=? emax - prec); reflexivity.
Qed.

Lemma binary_round_pos m e :
  emin <= e -> sf_pos (binary_round prec emax false m e).
Proof.
  intro He. unfold binary_round, shl_align.
  set (f := fexp prec emax (Z.pos (digits2_pos m) + e)).
  assert (emin <= f) by (unfold f, fexp; lia).
  destruct (f - e) as [|d|d] eqn:D; apply binary_round_aux_pos; lia.
Qed.

Lemma valid_exponent s m e :
  valid_binary (S754_finite s m e) = true -> emin <= e.
Proof.
  unfold valid_binary, bounded, canonical_mantissa, fexp.
  intro H. apply andb_true_iff in H. destruct H as [H _].
  apply Z.eqb_eq in H. lia.
Qed.

Lemma SFadd_pos x y :
  valid_binary x = true -> valid_binary y = true ->
  sf_pos x -> sf_pos y -> sf_pos (SFadd prec emax x y).
Proof.
  intros Vx Vy Hx Hy.
  destruct x as [sx|sx| |sx mx ex], y as [sy|sy| |sy my ey];
    simpl in Hx, Hy |- *; try contradiction; subst; try reflexivity.
  apply valid_exponent in Vx. apply valid_exponent in Vy.
  apply binary_round_pos. lia.
Qed.

(** *** Whole numbers as primitive floats *)

Lemma of_Z_SF z : 0 <= z < 2 ^ 53 -> Prim2SF (of_Z z) = SF_of_Z z.
Proof.
  intro H. unfold of_Z, SF_of_Z. rewrite of_uint63_spec, Uint63.of_Z_spec.
  rewrite Z.mod_small; trivial.
  change wB with (2 ^ 63). lia.
Qed.

Lemma of_Z_add a b :
  0 <= a -> 0 <= b -> a + b < 2 ^ 53 ->
  (of_Z a + of_Z b)%float = of_Z (a + b).
Proof.
  intros Ha Hb Hab. apply Prim2SF_inj.
  rewrite add_spec, !of_Z_SF by lia.
  now apply SFadd_of_Z.
Qed.

Lemma of_Z_truthy z : 0 < z < 2 ^ 53 -> truthy (of_Z z) = true.
Proof.
  intro H. unfold truthy, PrimFloat.is_zero, PrimFloat.is_nan.
  rewrite !eqb_spec, of_Z_SF by lia.
  destruct z as [|p|p]; try lia.
  rewrite SF_of_Z_pos by lia.
  change (Prim2SF zero) with (S754_zero false).
  unfold SFeqb at 2. rewrite SFcompare_refl by discriminate. reflexivity.
Qed.

Lemma of_Z_zero : of_Z 0 = 0%float.
Proof. reflexivity. Qed.

Local Close Scope Z_scope.

Lemma sum_pos a b :
  gt a 0%float = true -> gt b 0%float = true -> gt (a + b)%float 0%float = true.
Proof.
  rewrite !gt_zero_SF, add_spec. intros Ha Hb.
  apply SFadd_pos; trivial; apply Prim2SF_valid.
Qed.

Lemma zero_sum_pos b :
  gt b 0%float = true -> gt (0 + b)%float 0%float = true.
Proof.
  rewrite !gt_zero_SF, add_spec, SF_zero. intro Hb.
  destruct (Prim2SF b) as [s|s| |s m e]; simpl in *; try contradiction;
    trivial.
Qed.

Lemma pos_truthy a : gt a 0%float = true -> truthy a = true.
Proof.
  rewrite gt_zero_SF. unfold truthy, PrimFloat.is_zero.
  rewrite is_nan_match, eqb_spec.
  change (Prim2SF zero) with (S754_zero false).
  destruct (Prim2SF a) as [s|s| |s m e]; simpl; try contradiction;
    intros ->; reflexivity.
Qed.

(** ** What rendering leaves alone *)

Section Frames.

Variable parseFloat : string -> number.
Variable localeCompare : string -> string -> Z.

Lemma renderTable_frame st :
  let st' := renderTable localeCompare st in
  transactions st' = transactions st /\ savingsGoal st' = savingsGoal st /\
  storage st' = storage st /\ pieChart st' = pieChart st /\
  totalBalance (dom st') = totalBalance (dom st) /\
  totalIncome (dom st') = totalIncome (dom st) /\
  totalExpense (dom st') = totalExpense (dom st) /\
  balanceBar_width (dom st') = balanceBar_width (dom st) /\
  alertBanner_visible (dom st') = alertBanner_visible (dom st).
Proof.
  unfold renderTable.
  destruct (List.length _ =? 0)%nat; simpl; repeat split; reflexivity.
Qed.

Lemma renderPieChart_frame st :
  let st' := renderPieChart st in
  transactions st' = transactions st /\ savingsGoal st' = savingsGoal st /\
  storage st' = storage st /\
  totalBalance (dom st') = totalBalance (dom st) /\
  totalIncome (dom st') = totalIncome (dom st) /\
  totalExpense (dom st') = totalExpense (dom st) /\
  balanceBar_width (dom st') = balanceBar_width (dom st) /\
  alertBanner_visible (dom st') = alertBanner_visible (dom st) /\
  txnBody (dom st') = txnBody (dom st) /\
  tableEmpty_visible (dom st') = tableEmpty_visible (dom st).
Proof.
  unfold renderPieChart.
  destruct (List.length _ =? 0)%nat; simpl; repeat split; reflexivity.
Qed.

Lemma renderGoal_frame st :
  let st' := renderGoal st in
  transactions st' = transactions st /\ savingsGoal st' = savingsGoal st /\
  storage st' = storage st /\ pieChart st' = pieChart st /\
  totalBalance (dom st') = totalBalance (dom st) /\
  totalIncome (dom st') = totalIncome (dom st) /\
  totalExpense (dom st') = totalExpense (dom st) /\
  balanceBar_width (dom st') = balanceBar_width (dom st) /\
  alertBanner_visible (dom st') = alertBanner_visible (dom st) /\
  txnBody (dom st') = txnBody (dom st) /\
  tableEmpty_visible (dom st') = tableEmpty_visible (dom st).
Proof.
  unfold renderGoal. destruct st as [txs [g|] chart sto d]; simpl;
    repeat split; reflexivity.
Qed.

Lemma refresh_frame st :
  let st' := refresh localeCompare st in
  transactions st' = transactions st /\ savingsGoal st' = savingsGoal st /\
  storage st' = storage st.
Proof.
  unfold refresh, renderCharts. cbv zeta.
  destruct (renderGoal_frame
              (renderPieChart (renderTable localeCompare (renderSummary st))))
    as (-> & -> & -> & _).
  destruct (renderPieChart_frame (renderTable localeCompare (renderSummary st)))
    as (-> & -> & -> & _).
  destruct (renderTable_frame (renderSummary st)) as (-> & -> & -> & _).
  repeat split; reflexivity.
Qed.

(** After a refresh the summary shows the totals of the current list. *)
Lemma refresh_summary st :
  let st' := refresh localeCompare st in
  let T := calcTotals (transactions st) in
  totalBalance (dom st') = balance T /\
  totalIncome (dom st') = income T /\
  totalExpense (dom st') = expense T /\
  balanceBar_width (dom st') = balancePercent (transactions st) /\
  alertBanner_visible (dom st') = overspendAlert (transactions st).
Proof.
  unfold refresh, renderCharts. cbv zeta.
  destruct (renderGoal_frame
              (renderPieChart (renderTable localeCompare (renderSummary st))))
    as (_ & _ & _ & _ & -> & -> & -> & -> & -> & _).
  destruct (renderPieChart_frame (renderTable localeCompare (renderSummary st)))
    as (_ & _ & _ & -> & -> & -> & -> & -> & _).
  destruct (renderTable_frame (renderSummary st))
    as (_ & _ & _ & _ & -> & -> & -> & -> & ->).
  repeat split; reflexivity.
Qed.

Lemma perform_summary st a :
  let st' := perform parseFloat localeCompare st a in
  let T := calcTotals (transactions st') in
  totalBalance (dom st') = balance T /\
  totalIncome (dom st') = income T /\
  totalExpense (dom st') = expense T.
Proof.
  cbv zeta.
  destruct a as [uid f|id]; unfold perform, addTransaction, deleteTransaction;
    match goal with
    | |- context [refresh localeCompare ?s] =>
        destruct (refresh_frame s) as (-> & _);
        destruct (refresh_summary s) as (-> & -> & -> & _)
    end; repeat split; reflexivity.
Qed.

End Frames.

(** ** The totals (C1) *)

Lemma sum_amounts_total_of ty txs acc :
  fold_left (fun s t => (s + Txn.amount t)%float) (filter (has_type ty) txs) acc
  = total_of ty txs acc.
Proof.
  revert acc. induction txs as [|t r IH]; intro acc; simpl; trivial.
  unfold has_type at 1. destruct (String.eqb (Txn.type t) ty); simpl; apply IH.
Qed.

(** C1: whatever transactions were added and deleted, the totals computed
    from the resulting list satisfy balance = income - expense, where income
    and expense are the sums of the amounts of the transactions of type
    'income' and 'expense' (JavaScript's [===] confirms the equation unless
    the balance is NaN); and once something was added or deleted, the summary
    on the page shows exactly these totals. *)
Theorem totals_recomputed
    (parseFloat : string -> number) (localeCompare : string -> string -> Z)
    (st : app) (acts : list action) :
  let st' := run parseFloat localeCompare st acts in
  let T := calcTotals (transactions st') in
  balance T = (income T - expense T)%float /\
  (PrimFloat.is_nan (balance T) = false ->
   (balance T =? income T - expense T)%float = true) /\
  income T = total_of "income" (transactions st') 0%float /\
  expense T = total_of "expense" (transactions st') 0%float /\
  (acts <> [] ->
   totalBalance (dom st')
   = (totalIncome (dom st') - totalExpense (dom st'))%float /\
   totalIncome (dom st') = income T /\
   totalExpense (dom st') = expense T).
Proof.
  cbv zeta.
  split; [reflexivity|].
  split; [intro N; unfold PrimFloat.is_nan in N;
          now apply negb_false_iff in N|].
  split; [apply sum_amounts_total_of|].
  split; [apply sum_amounts_total_of|].
  intro Hne. destruct (exists_last Hne) as (acts' & a & ->).
  unfold run. rewrite fold_left_app. simpl.
  destruct (perform_summary parseFloat localeCompare
              (fold_left (perform parseFloat localeCompare) acts' st) a)
    as (E1 & E2 & E3).
  rewrite E1, E2, E3. repeat split; reflexivity.
Qed.

(** ** The balance bar (C2) *)

Lemma only_expense_no_income txs :
  (forall t, In t txs -> Txn.type t = "expense"%string) ->
  filter (has_type "income") txs = [].
Proof.
  induction txs as [|t r IH]; intro H; simpl; trivial.
  unfold has_type at 1. rewrite (H t) by (left; reflexivity). simpl.
  apply IH. intros u Hu. apply H. now right.
Qed.

Lemma percent_not_nan (inc exp : number) :
  gt inc 0%float = true -> inc <> infinity -> PrimFloat.is_nan exp = false ->
  PrimFloat.is_nan ((inc - exp) / inc * 100)%float = false.
Proof.
  intros Hpos Hinf Hexp.
  apply gt_zero_SF in Hpos. apply not_nan_SF in Hexp. apply not_nan_SF.
  rewrite mul_spec, div_spec, sub_spec, SF_hundred.
  destruct (Prim2SF inc) as [s|s| |s m e] eqn:E; simpl in Hpos;
    try contradiction.
  - subst s. exfalso. apply Hinf. apply Prim2SF_inj. now rewrite E.
  - apply SFmul_finite_not_nan, SFdiv_finite_not_nan, SFsub_not_nan;
      trivial; discriminate.
Qed.

(** The width is NaN as soon as the income total is +Infinity, or is
    positive while the expense total is NaN. *)
Lemma nan_balance_bar_cases (st : app) :
  let T := calcTotals (transactions st) in
  income T = infinity \/
  (gt (income T) 0%float = true /\ PrimFloat.is_nan (expense T) = true) ->
  PrimFloat.is_nan (balanceBar_width (dom (renderSummary st))) = true.
Proof.
  intros T H.
  change (PrimFloat.is_nan (balancePercent (transactions st)) = true).
  unfold balancePercent. fold T.
  assert (G : gt (income T) 0%float = true)
    by (destruct H as [->|[G _]]; [reflexivity | exact G]).
  rewrite G.
  assert (N : PrimFloat.is_nan (balance T / income T * 100)%float = true).
  { apply is_nan_SF. unfold T at 1, calcTotals. cbn [balance]. fold T.
    change (sum_amounts (filter (has_type "income") (transactions st)))
      with (income T).
    change (sum_amounts (filter (has_type "expense") (transactions st)))
      with (expense T).
    rewrite mul_spec, div_spec, sub_spec.
    destruct H as [E|[_ E]].
    - rewrite E, SF_infinity.
      destruct (Prim2SF (expense T)) as [s|[]| |s m e]; reflexivity.
    - apply is_nan_SF in E. rewrite E.
      destruct (Prim2SF (income T)); reflexivity. }
  rewrite (Math_min_nan 100%float _ N). reflexivity.
Qed.


(** C2, as amended: the width of the balance bar is
    clamp(balance/income * 100, 0, 100) when income > 0 and 0 otherwise, in
    particular when income is 0 and when every transaction is an expense.
    It lies within [0,100] unless the income total is +Infinity, or is
    greater than 0 while the expense total is NaN; in these two cases it is
    NaN. *)
Theorem balance_bar_range (st : app) :
  let T := calcTotals (transactions st) in
  let pct := balanceBar_width (dom (renderSummary st)) in
  (gt (income T) 0%float = true ->
   pct = Math_max 0%float
           (Math_min 100%float (balance T / income T * 100)%float)) /\
  (gt (income T) 0%float = false -> pct = 0%float) /\
  (income T = 0%float -> pct = 0%float) /\
  ((forall t, In t (transactions st) -> Txn.type t = "expense"%string) ->
   pct = 0%float) /\
  (income T <> infinity ->
   (gt (income T) 0%float = true -> PrimFloat.is_nan (expense T) = false) ->
   within_0_100 pct) /\
  (income T = infinity \/
   (gt (income T) 0%float = true /\ PrimFloat.is_nan (expense T) = true) ->
   PrimFloat.is_nan pct = true /\ ~ within_0_100 pct).
Proof.
  intros T pct.
  assert (Hpct : pct = balancePercent (transactions st)) by reflexivity.
  unfold balancePercent in Hpct. fold T in Hpct.
  assert (Hzero : income T = 0%float -> pct = 0%float).
  { intro E. rewrite Hpct, E. reflexivity. }
  split; [|split; [|split; [|split; [|split]]]]; trivial.
  - intro G. now rewrite Hpct, G.
  - intro G. now rewrite Hpct, G.
  - intro H. apply Hzero. unfold T, calcTotals. simpl income.
    now rewrite only_expense_no_income.
  - intros Hinf Hexp. rewrite Hpct.
    destruct (gt (income T) 0%float) eqn:G.
    + apply clamp_range. apply percent_not_nan; trivial. now apply Hexp.
    + split; reflexivity.
  - intro H.
    assert (N : PrimFloat.is_nan pct = true)
      by exact (nan_balance_bar_cases st H).
    split; [exact N|].
    intros [L _]. unfold le in L.
    rewrite leb_spec in L. apply is_nan_SF in N. rewrite N in L.
    destruct (Prim2SF 0%float); discriminate.
Qed.

(** C2 as stated fails: the income total overflows to Infinity, the ratio
    Infinity/Infinity is NaN, and NaN passes through both [Math.min] and
    [Math.max]. *)
Lemma balance_bar_nan :
  PrimFloat.is_nan
    (balanceBar_width (dom (renderSummary (page two_huge_incomes None)))) = true
  /\ ~ within_0_100
       (balanceBar_width (dom (renderSummary (page two_huge_incomes None)))).
Proof.
  split; [vm_compute; reflexivity|].
  intros [H _]. vm_compute in H. discriminate.
Qed.

(** An income of 5,000,000 and an expense of 2,000,000 are in range, and so
    is a lone expense whose amount was left blank. *)
Lemma balance_bar_range_witness :
  within_0_100
    (balanceBar_width (dom (renderSummary (page salary_and_food None)))) /\
  balanceBar_width (dom (renderSummary (page blank_expense None))) = 0%float.
Proof.
  split.
  - apply (balance_bar_range (page salary_and_food None)).
    + vm_compute. discriminate.
    + reflexivity.
  - apply (balance_bar_range (page blank_expense None)).
    intros t [<-|[]]. reflexivity.
Defined.

(** ** The overspend alert (C4) *)

(** C4: after the summary is rendered (on its own or as part of a refresh)
    the alert is shown exactly when expense > income and income > 0; a list
    of expenses only, whose income is zero, does not show it. *)
Theorem overspend_alert_shown
    (localeCompare : string -> string -> Z) (st : app) :
  let T := calcTotals (transactions st) in
  let shown := alertBanner_visible (dom (renderSummary st)) in
  (shown = true <->
   gt (expense T) (income T) = true /\ gt (income T) 0%float = true) /\
  alertBanner_visible (dom (refresh localeCompare st)) = shown /\
  ((forall t, In t (transactions st) -> Txn.type t = "expense"%string) ->
   income T = 0%float /\ shown = false).
Proof.
  intros T shown.
  assert (Hs : shown = overspendAlert (transactions st)) by reflexivity.
  unfold overspendAlert in Hs. fold T in Hs.
  split; [|split].
  - rewrite Hs. apply andb_true_iff.
  - destruct (refresh_summary localeCompare st) as (_ & _ & _ & _ & ->).
    reflexivity.
  - intro H.
    assert (E : income T = 0%float).
    { unfold T, calcTotals. simpl income.
      now rewrite only_expense_no_income. }
    split; trivial. rewrite Hs, E. apply andb_false_r.
Qed.

(** ** Deleting a transaction (C6, C10) *)

Lemma deleteTransaction_transactions localeCompare id st :
  transactions (deleteTransaction localeCompare id st)
  = filter (fun t => negb (String.eqb (Txn.id t) id)) (transactions st).
Proof.
  unfold deleteTransaction.
  match goal with
  | |- context [refresh localeCompare ?s] =>
      destruct (refresh_frame localeCompare s) as (-> & _)
  end.
  reflexivity.
Qed.

Lemma deleteTransaction_stored localeCompare id st :
  sft_transactions (storage (deleteTransaction localeCompare id st))
  = Some (transactions (deleteTransaction localeCompare id st)).
Proof.
  rewrite deleteTransaction_transactions. unfold deleteTransaction.
  match goal with
  | |- context [refresh localeCompare ?s] =>
      destruct (refresh_frame localeCompare s) as (_ & _ & ->)
  end.
  reflexivity.
Qed.

Lemma filter_removal id l :
  removal id l (filter (fun t => negb (String.eqb (Txn.id t) id)) l).
Proof.
  induction l as [|t r IH]; simpl; [constructor|].
  destruct (String.eqb_spec (Txn.id t) id) as [E|N]; simpl.
  - now apply removal_drop.
  - now apply removal_keep.
Qed.

Lemma filter_absent id l :
  (forall t, In t l -> Txn.id t <> id) ->
  filter (fun t => negb (String.eqb (Txn.id t) id)) l = l.
Proof.
  induction l as [|t r IH]; intro H; simpl; trivial.
  destruct (String.eqb_spec (Txn.id t) id) as [E|N]; simpl.
  - exfalso. apply (H t); [now left | exact E].
  - f_equal. apply IH. intros u Hu. apply H. now right.
Qed.

(** C6: deleting an id that no transaction carries leaves the list as it
    was, in contents and so in length; the list is stored again unchanged. *)
Theorem delete_absent_id
    (localeCompare : string -> string -> Z) (id : string) (st : app) :
  (forall t, In t (transactions st) -> Txn.id t <> id) ->
  let st' := deleteTransaction localeCompare id st in
  transactions st' = transactions st /\
  List.length (transactions st') = List.length (transactions st) /\
  sft_transactions (storage st') = Some (transactions st).
Proof.
  intros H st'.
  assert (E : transactions st' = transactions st).
  { unfold st'. rewrite deleteTransaction_transactions.
    now apply filter_absent. }
  split; [exact E|]. split; [now rewrite E|].
  unfold st'. rewrite deleteTransaction_stored. now f_equal.
Qed.

(** Deleting an id nobody carries from the two sample transactions. *)
Lemma delete_absent_id_witness :
  transactions (deleteTransaction codeCompare "zz" (page salary_and_food None))
  = salary_and_food.
Proof.
  apply (delete_absent_id codeCompare "zz" (page salary_and_food None)).
  intros t [<-|[<-|[]]]; discriminate.
Defined.

(** C10: deleting an id removes every transaction that carries it, not only
    the first, and keeps the others in the order they had. *)
Theorem delete_every_match
    (localeCompare : string -> string -> Z) (id : string) (st : app) :
  let l := transactions st in
  let l' := transactions (deleteTransaction localeCompare id st) in
  removal id l l' /\
  (forall t, In t l' <-> In t l /\ Txn.id t <> id) /\
  Forall (fun t => Txn.id t <> id) l'.
Proof.
  cbv zeta. rewrite deleteTransaction_transactions.
  split; [apply filter_removal|].
  assert (M : forall t,
             In t (filter (fun t => negb (String.eqb (Txn.id t) id))
                     (transactions st))
             <-> In t (transactions st) /\ Txn.id t <> id).
  { intro t. rewrite filter_In.
    destruct (String.eqb_spec (Txn.id t) id); simpl; intuition congruence. }
  split; [exact M|].
  apply Forall_forall. intros t Ht. now apply M in Ht.
Qed.

(** ** Setting the goal (C7) *)

(** [!x || x <= 0] is the negation of [x > 0]. *)
Lemma rejected_target x :
  negb (truthy x) || le x 0%float = negb (gt x 0%float).
Proof.
  unfold truthy, le, gt, PrimFloat.is_zero.
  rewrite is_nan_match, eqb_spec, leb_spec, ltb_spec.
  change (Prim2SF zero) with (S754_zero false).
  change (Prim2SF 0%float) with (S754_zero false).
  destruct (Prim2SF x) as [[]|[]| |[] m e]; reflexivity.
Qed.

Lemma not_positive_cases x :
  gt x 0%float = false <-> PrimFloat.is_nan x = true \/ le x 0%float = true.
Proof.
  unfold le, gt. rewrite is_nan_match, leb_spec, ltb_spec.
  change (Prim2SF 0%float) with (S754_zero false).
  destruct (Prim2SF x) as [[]|[]| |[] m e]; simpl;
    intuition discriminate.
Qed.

(** C7: [setGoal] does nothing at all (goal in memory, stored goal and page
    unchanged) when the trimmed name is empty or the target is NaN, as
    [parseFloat] returns for text that is not a number, or is not positive;
    in every other case the goal in memory and the stored goal become
    [{name, target}], whatever goal there was, and the transactions stay. *)
Theorem set_goal_validation
    (parseFloat : string -> number) (goalName goalAmount : string)
    (st : app) :
  let name := trim goalName in
  let target := parseFloat goalAmount in
  let st' := setGoal parseFloat goalName goalAmount st in
  (name = ""%string \/ PrimFloat.is_nan target = true \/
   le target 0%float = true -> st' = st) /\
  (name <> ""%string -> gt target 0%float = true ->
   savingsGoal st' = Some (Goal.make name target) /\
   sft_goal (storage st') = Some (Goal.make name target) /\
   transactions st' = transactions st /\
   sft_transactions (storage st') = sft_transactions (storage st)) /\
  ((name = ""%string \/ PrimFloat.is_nan target = true \/
    le target 0%float = true) \/
   (name <> ""%string /\ gt target 0%float = true)).
Proof.
  intros name target st'.
  assert (E : st' =
              if String.eqb name "" || negb (gt target 0%float) then st
              else renderGoal
                     (set_storage
                        (mkStorage (sft_transactions (storage st))
                           (Some (Goal.make name target)))
                        (set_savingsGoal (Some (Goal.make name target)) st))).
  { unfold st', setGoal. fold name target.
    rewrite <- orb_assoc, rejected_target. reflexivity. }
  split; [|split].
  - intros [H|H].
    + rewrite E, H. reflexivity.
    + apply not_positive_cases in H. rewrite E, H. simpl.
      now rewrite orb_true_r.
  - intros Hn Hp. rewrite E, Hp.
    destruct (String.eqb_spec name ""); [contradiction|]. cbn [orb negb].
    match goal with
    | |- context [renderGoal ?s] =>
        destruct (renderGoal_frame s) as (-> & -> & -> & _)
    end.
    repeat split; reflexivity.
  - destruct (String.eqb_spec name "") as [Hn|Hn]; [now left; left|].
    destruct (gt target 0%float) eqn:G.
    + right. now split.
    + left. right. now apply not_positive_cases.
Qed.

(** ** The goal bar (C5) *)





(** Neither condition on the balance can be dropped: the percentage is NaN
    as soon as the balance is NaN, or balance and target are both
    +Infinity. *)
Lemma nan_goal_bar_cases (st : app) (goal : Goal.t) :
  savingsGoal st = Some goal ->
  PrimFloat.is_nan (balance (calcTotals (transactions st))) = true \/
  (balance (calcTotals (transactions st)) = infinity /\
   Goal.target goal = infinity) ->
  PrimFloat.is_nan (goalBar_width (dom (renderGoal st))) = true.
Proof.
  intros Hg H. unfold renderGoal. rewrite Hg.
  cbn [goalBar_width dom set_dom write_goal].
  set (b := balance (calcTotals (transactions st))) in *.
  apply eq_trans with (PrimFloat.is_nan nan); [|reflexivity]. f_equal.
  apply Math_min_nan. apply is_nan_SF. rewrite mul_spec, div_spec.
  destruct H as [E|[E1 E2]].
  - rewrite (Math_max_nan 0%float b E). reflexivity.
  - rewrite E1, E2. reflexivity.
Qed.



(** ** The table (C8) *)

Lemma codeCompare_sgn a b :
  Z.sgn (codeCompare b a) = (- Z.sgn (codeCompare a b))%Z.
Proof.
  revert b. induction a as [|x a IH]; intros [|y b]; simpl; trivial.
  rewrite (Nat.compare_antisym (nat_of_ascii x) (nat_of_ascii y)).
  destruct (nat_of_ascii x ?= nat_of_ascii y)%nat; simpl; trivial.
Qed.

Lemma codeCompare_trans a b c :
  (codeCompare a b <= 0)%Z -> (codeCompare b c <= 0)%Z ->
  (codeCompare a c <= 0)%Z.
Proof.
  revert b c. induction a as [|x a IH]; intros [|y b] [|z c]; simpl;
    try lia.
  destruct (Nat.compare_spec (nat_of_ascii x) (nat_of_ascii y));
    destruct (Nat.compare_spec (nat_of_ascii y) (nat_of_ascii z));
    destruct (Nat.compare_spec (nat_of_ascii x) (nat_of_ascii z));
    try lia.
  apply IH.
Qed.

Lemma codeCompare_collation : collation codeCompare.
Proof.
  split; [intros a b; apply codeCompare_sgn | exact codeCompare_trans].
Qed.

Section Sorting.

Variable A : Type.
Variable cmp : A -> A -> Z.
Hypothesis cmp_total : forall a b, (0 < cmp a b)%Z -> (cmp b a <= 0)%Z.
Hypothesis cmp_trans :
  forall a b c, (cmp a b <= 0)%Z -> (cmp b c <= 0)%Z -> (cmp a c <= 0)%Z.

Lemma insert_perm x l : Permutation (insert cmp x l) (x :: l).
Proof.
  induction l as [|y r IH]; simpl; trivial.
  destruct (cmp x y <=? 0)%Z; trivial.
  rewrite IH. apply perm_swap.
Qed.

Lemma sort_perm l : Permutation (sort cmp l) l.
Proof.
  induction l as [|x r IH]; simpl; trivial.
  rewrite insert_perm. now constructor.
Qed.

Lemma insert_sorted x l :
  StronglySorted (fun a b => (cmp a b <= 0)%Z) l ->
  StronglySorted (fun a b => (cmp a b <= 0)%Z) (insert cmp x l).
Proof.
  induction 1 as [|y r Hs IH Hy]; simpl.
  - repeat constructor.
  - destruct (Z.leb_spec (cmp x y) 0) as [L|G].
    + constructor; [now constructor|]. constructor; trivial.
      rewrite Forall_forall in *. intros z Hz. eauto.
    + constructor; trivial.
      rewrite Forall_forall in *. intros z Hz.
      apply (Permutation_in _ (insert_perm x r)) in Hz.
      destruct Hz as [<-|Hz]; auto.
Qed.

Lemma sort_sorted l : StronglySorted (fun a b => (cmp a b <= 0)%Z) (sort cmp l).
Proof.
  induction l as [|x r IH]; simpl; [constructor | now apply insert_sorted].
Qed.

End Sorting.

Lemma StronglySorted_weaken (A : Type) (R S : A -> A -> Prop) l :
  (forall a b, R a b -> S a b) -> StronglySorted R l -> StronglySorted S l.
Proof.
  intros H. induction 1 as [|x r Hs IH Hx]; constructor; trivial.
  rewrite Forall_forall in *. auto.
Qed.

Lemma StronglySorted_filter (A : Type) (R : A -> A -> Prop) f l :
  StronglySorted R l -> StronglySorted R (filter f l).
Proof.
  induction 1 as [|x r Hs IH Hx]; simpl; [constructor|].
  destruct (f x); trivial. constructor; trivial.
  rewrite Forall_forall in *. intros z Hz. apply filter_In in Hz. now apply Hx.
Qed.

Lemma Permutation_filter_same (A : Type) (f : A -> bool) l l' :
  Permutation l l' -> Permutation (filter f l) (filter f l').
Proof.
  induction 1 as [|x l l' H IH|x y l|l l' l'' H1 IH1 H2 IH2]; simpl.
  - constructor.
  - destruct (f x); auto.
  - destruct (f x), (f y); auto. apply perm_swap.
  - now transitivity (filter f l').
Qed.

Section Rows.

Variable localeCompare : string -> string -> Z.
Hypothesis Hc : collation localeCompare.

Lemma localeCompare_flip a b :
  (0 < localeCompare a b)%Z -> (localeCompare b a < 0)%Z.
Proof. destruct Hc as [S _]. specialize (S a b). lia. Qed.

Lemma localeCompare_flip_zero a b :
  localeCompare a b = 0%Z -> localeCompare b a = 0%Z.
Proof. destruct Hc as [S _]. specialize (S a b). lia. Qed.

Lemma localeCompare_flip_neg a b :
  (localeCompare a b < 0)%Z -> (0 < localeCompare b a)%Z.
Proof. destruct Hc as [S _]. specialize (S a b). lia. Qed.

Lemma localeCompare_strict a b c :
  (localeCompare a b < 0)%Z -> (localeCompare b c <= 0)%Z ->
  (localeCompare a c < 0)%Z.
Proof.
  intros H1 H2. destruct Hc as [S T].
  destruct (Z.lt_ge_cases (localeCompare a c) 0) as [|G]; trivial.
  assert (localeCompare c a <= 0)%Z by (specialize (S a c); lia).
  assert (localeCompare b a <= 0)%Z by eauto.
  specialize (S a b). lia.
Qed.

Lemma localeCompare_strict_r a b c :
  (localeCompare a b <= 0)%Z -> (localeCompare b c < 0)%Z ->
  (localeCompare a c < 0)%Z.
Proof.
  intros H1 H2. destruct Hc as [S T].
  destruct (Z.lt_ge_cases (localeCompare a c) 0) as [|G]; trivial.
  assert (localeCompare c a <= 0)%Z by (specialize (S a c); lia).
  assert (localeCompare c b <= 0)%Z by eauto.
  specialize (S b c). lia.
Qed.

Lemma compareRows_cases a b :
  (compareRows localeCompare a b <= 0)%Z <->
  (localeCompare (Txn.date b) (Txn.date a) < 0)%Z \/
  (localeCompare (Txn.date b) (Txn.date a) = 0%Z /\
   (localeCompare (Txn.id b) (Txn.id a) <= 0)%Z).
Proof.
  unfold compareRows, or_Z.
  destruct (Z.eqb_spec (localeCompare (Txn.date b) (Txn.date a)) 0); lia.
Qed.

Lemma compareRows_total a b :
  (0 < compareRows localeCompare a b)%Z ->
  (compareRows localeCompare b a <= 0)%Z.
Proof.
  intro H. apply compareRows_cases.
  assert (N : ~ (compareRows localeCompare a b <= 0)%Z) by lia.
  rewrite compareRows_cases in N.
  destruct Hc as [S _].
  pose proof (S (Txn.date a) (Txn.date b)).
  pose proof (S (Txn.id a) (Txn.id b)). lia.
Qed.

Lemma compareRows_trans a b c :
  (compareRows localeCompare a b <= 0)%Z ->
  (compareRows localeCompare b c <= 0)%Z ->
  (compareRows localeCompare a c <= 0)%Z.
Proof.
  rewrite !compareRows_cases. destruct Hc as [S T].
  intros [H1|[H1 H1']] [H2|[H2 H2']].
  - left. apply localeCompare_strict_r with (Txn.date b); lia.
  - left. apply localeCompare_strict_r with (Txn.date b); lia.
  - left. apply localeCompare_strict with (Txn.date b); lia.
  - right. split.
    + assert (localeCompare (Txn.date c) (Txn.date a) <= 0)%Z
        by (apply T with (Txn.date b); lia).
      assert (localeCompare (Txn.date a) (Txn.date c) <= 0)%Z.
      { apply T with (Txn.date b).
        - pose proof (S (Txn.date a) (Txn.date b)); lia.
        - pose proof (S (Txn.date b) (Txn.date c)); lia. }
      pose proof (S (Txn.date a) (Txn.date c)). lia.
    + eauto.
Qed.

Lemma compareRows_later a b :
  (compareRows localeCompare a b <= 0)%Z -> later_first localeCompare a b.
Proof.
  rewrite compareRows_cases. unfold later_first. destruct Hc as [S _].
  pose proof (S (Txn.date a) (Txn.date b)).
  pose proof (S (Txn.id a) (Txn.id b)). lia.
Qed.

End Rows.

(** C8: for a collation [localeCompare], the table lists the transactions
    sorted by date descending, equal dates by id descending, and then keeps
    the transactions of the selected type unless the filter is 'all'; the
    empty-state indicator is shown exactly when no row is left. *)
Theorem table_sorted_then_filtered
    (localeCompare : string -> string -> Z) (st : app) :
  collation localeCompare ->
  let flt := filterType (dom st) in
  let sorted := sort (compareRows localeCompare) (transactions st) in
  let rows :=
    if String.eqb flt "all" then sorted else filter (has_type flt) sorted in
  let st' := renderTable localeCompare st in
  StronglySorted (later_first localeCompare) sorted /\
  Permutation sorted (transactions st) /\
  txnBody (dom st') = rows /\
  StronglySorted (later_first localeCompare) rows /\
  Permutation rows
    (if String.eqb flt "all" then transactions st
     else filter (has_type flt) (transactions st)) /\
  (forall t, In t rows <->
             In t (transactions st) /\
             (flt = "all"%string \/ Txn.type t = flt)) /\
  (tableEmpty_visible (dom st') = true <-> rows = []).
Proof.
  intros Hc flt sorted rows st'.
  assert (Ss : StronglySorted (later_first localeCompare) sorted).
  { apply StronglySorted_weaken
      with (R := fun a b => (compareRows localeCompare a b <= 0)%Z).
    - intros a b. now apply compareRows_later.
    - apply sort_sorted.
      + intros a b. now apply compareRows_total.
      + intros a b c. now apply compareRows_trans. }
  assert (Ps : Permutation sorted (transactions st)) by apply sort_perm.
  assert (Er : tableRows localeCompare flt (transactions st) = rows).
  { unfold tableRows, rows. fold sorted.
    destruct (String.eqb flt "all"); reflexivity. }
  assert (Eb : txnBody (dom st') = rows
               /\ (tableEmpty_visible (dom st') = true <-> rows = [])).
  { unfold st', renderTable. fold flt. rewrite Er.
    destruct rows as [|r rs]; simpl; split; trivial;
      split; intro; trivial; discriminate. }
  destruct Eb as [Eb Ee].
  assert (Pr : Permutation rows
                 (if String.eqb flt "all" then transactions st
                  else filter (has_type flt) (transactions st))).
  { unfold rows. destruct (String.eqb flt "all"); trivial.
    now apply Permutation_filter_same. }
  split; [exact Ss|]. split; [exact Ps|]. split; [exact Eb|].
  split; [|split; [exact Pr|split; [|exact Ee]]].
  - unfold rows. destruct (String.eqb flt "all"); trivial.
    now apply StronglySorted_filter.
  - intro t. split.
    + intro H. apply (Permutation_in _ Pr) in H.
      destruct (String.eqb_spec flt "all") as [E|N]; [tauto|].
      apply filter_In in H. destruct H as [H1 H2]. split; trivial.
      right. now apply String.eqb_eq.
    + intros [H1 H2]. apply (Permutation_in _ (Permutation_sym Pr)).
      destruct (String.eqb_spec flt "all") as [E|N]; trivial.
      apply filter_In. split; trivial.
      destruct H2 as [H2|H2]; [contradiction|]. now apply String.eqb_eq.
Qed.

(** Under comparison by code units the expense of 2024-01-02 stands above
    the income of 2024-01-01. *)
Lemma table_sorted_then_filtered_witness :
  StronglySorted (later_first codeCompare)
    (txnBody (dom (renderTable codeCompare (page salary_and_food None)))) /\
  txnBody (dom (renderTable codeCompare (page salary_and_food None)))
  = [expense_of "a2" "Makanan" "2024-01-02" 2000000%float;
     income_of "a1" "Gaji" "2024-01-01" 5000000%float].
Proof.
  split; [|reflexivity].
  destruct (table_sorted_then_filtered codeCompare
              (page salary_and_food None) codeCompare_collation)
    as (_ & _ & E & S & _).
  rewrite E. exact S.
Defined.

(** ** Facts about objects *)

Lemma own_keys o k : own o k = None <-> ~ In k (keys o).
Proof.
  induction o as [|[k' v'] r IH]; simpl; [tauto|].
  destruct (String.eqb_spec k' k) as [->|N].
  - split; [discriminate | intro H; contradiction H; now left].
  - rewrite IH. tauto.
Qed.

Lemma own_In o k v : own o k = Some v -> In (k, v) o.
Proof.
  induction o as [|[k' v'] r IH]; simpl; [discriminate|].
  destruct (String.eqb_spec k' k) as [->|N].
  - intro H. injection H as ->. now left.
  - intro H. right. now apply IH.
Qed.

Lemma In_own o k v : NoDup (keys o) -> In (k, v) o -> own o k = Some v.
Proof.
  induction o as [|[k0 v0] r IH]; simpl; intros Hn Hin; [contradiction|].
  inversion Hn as [|? ? Hk Hr]; subst.
  destruct Hin as [E|Hin].
  - injection E as -> ->. now rewrite String.eqb_refl.
  - destruct (String.eqb_spec k0 k) as [->|N]; [|now apply IH].
    exfalso. apply Hk. change k with (fst (k, v)). now apply in_map.
Qed.

Lemma replace_shape o k v v0 :
  own o k = Some v0 ->
  exists l1 l2,
    o = l1 ++ (k, v0) :: l2 /\ replace o k v = l1 ++ (k, v) :: l2.
Proof.
  induction o as [|[k' v'] r IH]; simpl; [discriminate|].
  destruct (String.eqb_spec k' k) as [->|N].
  - intro H. injection H as ->. now exists [], r.
  - intro H. destruct (IH H) as (l1 & l2 & -> & ->).
    now exists ((k', v') :: l1), l2.
Qed.

Lemma place_shape i p o :
  exists l1 l2, o = l1 ++ l2 /\ place i p o = l1 ++ p :: l2.
Proof.
  induction o as [|q r IH]; simpl.
  - now exists [], [].
  - destruct IH as (l1 & l2 & E1 & E2).
    destruct (array_index (fst q)) as [j|]; [destruct (j <? i)%Z|].
    + exists (q :: l1), l2. simpl. now rewrite <- E1, E2.
    + now exists [], (q :: r).
    + now exists [], (q :: r).
Qed.

(** Assigning under a name other than [__proto__] changes the value of the
    own property in place, or puts a new property somewhere, at the end when
    the name is no array index. *)
Lemma set_shape o k v :
  k <> "__proto__"%string ->
  (exists v0 l1 l2,
      own o k = Some v0 /\ o = l1 ++ (k, v0) :: l2 /\
      set o k v = l1 ++ (k, v) :: l2) \/
  (own o k = None /\
   exists l1 l2,
     o = l1 ++ l2 /\ set o k v = l1 ++ (k, v) :: l2 /\
     (array_index k = None -> l2 = [])).
Proof.
  intro N. unfold set. apply String.eqb_neq in N. rewrite N.
  destruct (own o k) as [v0|] eqn:E.
  - left. destruct (replace_shape o k v v0 E) as (l1 & l2 & E1 & E2).
    now exists v0, l1, l2.
  - right. split; trivial.
    destruct (array_index k) as [i|].
    + destruct (place_shape i (k, v) o) as (l1 & l2 & E1 & E2).
      exists l1, l2. repeat split; trivial. discriminate.
    + exists o, []. rewrite app_nil_r. now repeat split.
Qed.

Lemma set_proto o v : set o "__proto__" v = o.
Proof. reflexivity. Qed.

Lemma keys_set_In o k v c :
  In c (keys (set o k v)) <->
  In c (keys o) \/ (c = k /\ k <> "__proto__"%string).
Proof.
  destruct (String.eqb_spec k "__proto__") as [->|N].
  - rewrite set_proto. tauto.
  - destruct (set_shape o k v N)
      as [(v0 & l1 & l2 & _ & -> & ->)|(_ & l1 & l2 & -> & -> & _)];
      unfold keys; rewrite !map_app; simpl; rewrite !in_app_iff; simpl;
      intuition congruence.
Qed.

Lemma keys_set_NoDup o k v : NoDup (keys o) -> NoDup (keys (set o k v)).
Proof.
  destruct (String.eqb_spec k "__proto__") as [->|N]; [now rewrite set_proto|].
  destruct (set_shape o k v N)
    as [(v0 & l1 & l2 & _ & -> & ->)|(E & l1 & l2 & -> & -> & _)];
    unfold keys; rewrite !map_app; simpl; trivial.
  intro H. apply (Permutation_NoDup (Permutation_middle _ _ _)).
  constructor; trivial.
  apply own_keys in E. unfold keys in E. now rewrite map_app in E.
Qed.

(** Under a name that is no array index and not [__proto__], a new key comes
    last. *)
Lemma keys_set_plain o k v :
  array_index k = None -> k <> "__proto__"%string ->
  keys (set o k v)
  = if existsb (String.eqb k) (keys o) then keys o else keys o ++ [k].
Proof.
  intros Hi N.
  destruct (set_shape o k v N)
    as [(v0 & l1 & l2 & E & -> & ->)|(E & l1 & l2 & -> & -> & L)].
  - unfold keys. rewrite !map_app. simpl.
    replace (existsb _ _) with true; trivial.
    symmetry. apply existsb_exists. exists k. rewrite String.eqb_refl.
    split; trivial. apply in_app_iff. right. now left.
  - rewrite (L Hi) in *. rewrite app_nil_r in *.
    replace (existsb _ _) with false; [unfold keys; now rewrite map_app|].
    symmetry. apply not_true_is_false. intro H.
    apply existsb_exists in H. destruct H as (c & Hc & Ec).
    apply String.eqb_eq in Ec. subst c. now apply own_keys in E.
Qed.

Lemma values_set_Forall (P : value -> Prop) o k v :
  Forall P (values o) -> P v -> Forall P (values (set o k v)).
Proof.
  destruct (String.eqb_spec k "__proto__") as [->|N]; [now rewrite set_proto|].
  destruct (set_shape o k v N)
    as [(v0 & l1 & l2 & _ & -> & ->)|(_ & l1 & l2 & -> & -> & _)];
    unfold values; rewrite !map_app; simpl; rewrite !Forall_app;
    intros [H1 H2] Hv; split; trivial.
  - inversion H2; subst. now constructor.
  - now constructor.
Qed.

Lemma own_set_same o k v :
  k <> "__proto__"%string -> NoDup (keys o) -> own (set o k v) k = Some v.
Proof.
  intros N Hn. apply In_own; [now apply keys_set_NoDup|].
  destruct (set_shape o k v N)
    as [(v0 & l1 & l2 & _ & _ & ->)|(_ & l1 & l2 & _ & -> & _)];
    apply in_app_iff; right; now left.
Qed.

Lemma own_app_other l1 l2 k k' (v v' : value) :
  k <> k' ->
  own (l1 ++ (k, v) :: l2) k' = own (l1 ++ l2) k' /\
  own (l1 ++ (k, v) :: l2) k' = own (l1 ++ (k, v') :: l2) k'.
Proof.
  intro N. apply String.eqb_neq in N.
  induction l1 as [|[k0 v0] r IH]; simpl; rewrite ?N; [now split|].
  destruct (String.eqb k0 k'); [now split | exact IH].
Qed.

Lemma own_set_other o k k' v : k <> k' -> own (set o k v) k' = own o k'.
Proof.
  intro N.
  destruct (String.eqb_spec k "__proto__") as [->|P]; [now rewrite set_proto|].
  destruct (set_shape o k v P)
    as [(v0 & l1 & l2 & _ & -> & ->)|(_ & l1 & l2 & -> & -> & _)].
  - now destruct (own_app_other l1 l2 k k' v v0 N) as [_ ->].
  - now destruct (own_app_other l1 l2 k k' v v N) as [-> _].
Qed.

(** ** The expenses by category (C3) *)

Lemma filter_twice (A : Type) (P Q : A -> bool) l :
  filter P (filter Q l) = filter (fun x => Q x && P x) l.
Proof.
  induction l as [|x r IH]; simpl; trivial.
  destruct (Q x); simpl; [destruct (P x)|]; now rewrite IH.
Qed.

Lemma filter_all (A : Type) (P : A -> bool) l :
  (forall x, P x = true) -> filter P l = l.
Proof.
  intro H. induction l as [|x r IH]; simpl; trivial.
  now rewrite H, IH.
Qed.

Lemma keys_fold_group l g :
  Forall (fun t => array_index (Txn.category t) = None /\
                   Txn.category t <> "__proto__"%string) l ->
  keys (fold_left group_step l g)
  = keys g ++
    filter (fun k => negb (existsb (String.eqb k) (keys g)))
      (first_seen (map Txn.category l)).
Proof.
  intro Hl. revert g.
  induction Hl as [|t r [Hi Hp] Hr IH]; intro g; simpl.
  - now rewrite app_nil_r.
  - rewrite IH. unfold group_step. rewrite keys_set_plain by trivial.
    set (c := Txn.category t). set (K := keys g).
    set (FS := first_seen (map Txn.category r)).
    destruct (existsb (String.eqb c) K) eqn:M; simpl.
    + f_equal. rewrite filter_twice. apply filter_ext_in. intros k _.
      destruct (String.eqb_spec k c) as [->|N]; simpl; trivial.
      now rewrite M.
    + rewrite <- app_assoc. simpl. do 2 f_equal.
      rewrite filter_twice. apply filter_ext. intro k.
      rewrite existsb_app. simpl. rewrite orb_false_r.
      rewrite (String.eqb_sym k c).
      destruct (existsb (String.eqb k) K), (String.eqb c k); reflexivity.
Qed.

(** When no expense category is an array index or [__proto__], the keys are
    the categories of the expenses, each where it first occurs. *)
Lemma keys_first_seen txs :
  Forall (fun t => array_index (Txn.category t) = None /\
                   Txn.category t <> "__proto__"%string)
    (filter (has_type "expense") txs) ->
  keys (expenseByCategory txs)
  = first_seen (map Txn.category (filter (has_type "expense") txs)).
Proof.
  intro H. unfold expenseByCategory. rewrite keys_fold_group by trivial.
  simpl. now apply filter_all.
Qed.

(** Whatever the categories, no key occurs twice, and the keys are the
    categories of the expenses other than [__proto__]. *)
Lemma keys_fold_NoDup l : forall g,
  NoDup (keys g) -> NoDup (keys (fold_left group_step l g)).
Proof.
  induction l as [|t r IH]; intros g H; simpl; trivial.
  apply IH. unfold group_step. now apply keys_set_NoDup.
Qed.

Lemma keys_fold_In l c : forall g,
  In c (keys (fold_left group_step l g)) <->
  In c (keys g) \/
  (c <> "__proto__"%string /\ exists t, In t l /\ Txn.category t = c).
Proof.
  induction l as [|t r IH]; intro g; simpl.
  - split; [now left | intros [H|(_ & t & [] & _)]; exact H].
  - rewrite IH. unfold group_step at 1. rewrite keys_set_In. split.
    + intros [[H|[-> N]]|(N & u & Hu & E)]; auto.
      * right. split; trivial. exists t. auto.
      * right. split; trivial. exists u. auto.
    + intros [H|(N & u & [->|Hu] & E)]; auto.
      * left. right. subst c. auto.
      * right. split; trivial. exists u. auto.
Qed.

Lemma keys_NoDup txs : NoDup (keys (expenseByCategory txs)).
Proof. apply keys_fold_NoDup. constructor. Qed.

Lemma keys_In txs c :
  In c (keys (expenseByCategory txs)) <->
  c <> "__proto__"%string /\
  exists t, In t (filter (has_type "expense") txs) /\ Txn.category t = c.
Proof.
  unfold expenseByCategory. rewrite keys_fold_In. simpl. tauto.
Qed.

Lemma Zsum_member z l : Forall whole_pos l -> In z l -> (z <= Zsum l)%Z.
Proof.
  induction 1 as [|x r Hx Hr IH]; simpl; intros [].
  - subst. assert (0 <= Zsum r)%Z; [|lia].
    clear IH.
    induction Hr as [|y s Hy Hs IHs]; simpl; unfold whole_pos in *; lia.
  - specialize (IH H). unfold whole_pos in Hx. lia.
Qed.

Lemma Zsum_nonneg l : Forall whole_pos l -> (0 <= Zsum l)%Z.
Proof.
  induction 1 as [|x r Hx Hr IH]; simpl; unfold whole_pos in *; lia.
Qed.

Lemma Zsum_app l1 l2 : Zsum (l1 ++ l2) = (Zsum l1 + Zsum l2)%Z.
Proof. induction l1 as [|x r IH]; simpl; lia. Qed.

Lemma get_not_member o k :
  ~ In k Object_prototype ->
  get o k = match own o k with Some v => v | None => Undefined end.
Proof.
  intro H. unfold get. destruct (own o k); trivial.
  replace (existsb _ _) with false; trivial.
  symmetry. apply not_true_is_false. intro E.
  apply existsb_exists in E. destruct E as (m & Hm & Em).
  apply String.eqb_eq in Em. now subst m.
Qed.

Lemma not_member_not_proto k :
  ~ In k Object_prototype -> k <> "__proto__"%string.
Proof. intros H ->. apply H. simpl. tauto. Qed.

(** One step of the grouping on whole amounts. *)
Lemma group_step_whole g vz t n :
  ~ In (Txn.category t) Object_prototype ->
  Txn.amount t = of_Z n ->
  values g = map (fun z => Num (of_Z z)) vz -> Forall whole_pos vz ->
  (0 < n)%Z -> (Zsum vz + n < 2 ^ 53)%Z ->
  exists vz',
    values (group_step g t) = map (fun z => Num (of_Z z)) vz' /\
    Forall whole_pos vz' /\ Zsum vz' = (Zsum vz + n)%Z.
Proof.
  intros Hc Ha Hv Hp Hn Hs.
  unfold group_step. rewrite get_not_member, Ha by trivial.
  set (w := plus _ _).
  destruct (set_shape g (Txn.category t) w (not_member_not_proto _ Hc))
    as [(v0 & l1 & l2 & E & Eg & ->)|(E & l1 & l2 & Eg & -> & _)];
    unfold w; clear w; rewrite E; clear E; subst g;
    unfold values in Hv |- *; rewrite map_app in Hv |- *;
    symmetry in Hv; apply map_eq_app in Hv;
    destruct Hv as (z1 & zr & -> & H1 & H2);
    rewrite Zsum_app in Hs; apply Forall_app in Hp; destruct Hp as [P1 P2];
    pose proof (Zsum_nonneg z1 P1) as N1.
  - destruct zr as [|z0 z2]; [discriminate|].
    cbn [map snd] in H2. injection H2 as H0 H2. subst v0.
    inversion P2 as [|? ? Pz P3]; subst.
    pose proof (Zsum_nonneg z2 P3) as N2.
    unfold whole_pos in Pz. cbn [Zsum fold_right] in Hs. fold (Zsum z2) in Hs.
    exists (z1 ++ (z0 + n)%Z :: z2).
    rewrite map_app, !Zsum_app, Forall_app. cbn [map snd Zsum fold_right].
    fold (Zsum z2).
    unfold or_zero. cbn [truthy_value]. rewrite of_Z_truthy by lia.
    cbn [plus]. rewrite of_Z_add by lia. rewrite H1, H2.
    split; [reflexivity|]. split; [|lia].
    split; trivial. constructor; trivial. unfold whole_pos. lia.
  - pose proof (Zsum_nonneg zr P2) as N2.
    exists (z1 ++ n :: zr).
    rewrite map_app, !Zsum_app, Forall_app. cbn [map snd Zsum fold_right].
    fold (Zsum zr).
    change (or_zero Undefined) with (Num (of_Z 0)). cbn [plus].
    rewrite of_Z_add by lia. rewrite Z.add_0_l, H1, H2.
    split; [reflexivity|]. split; [|lia].
    split; trivial. now constructor.
Qed.

Lemma group_fold_whole l : forall ns g vz,
  Forall (fun t => ~ In (Txn.category t) Object_prototype) l ->
  map Txn.amount l = map of_Z ns -> Forall whole_pos ns ->
  values g = map (fun z => Num (of_Z z)) vz -> Forall whole_pos vz ->
  (Zsum vz + Zsum ns < 2 ^ 53)%Z ->
  exists vz',
    values (fold_left group_step l g) = map (fun z => Num (of_Z z)) vz' /\
    Forall whole_pos vz' /\ Zsum vz' = (Zsum vz + Zsum ns)%Z.
Proof.
  induction l as [|t r IH]; intros ns g vz Hc Ha Hn Hv Hp Hs.
  - destruct ns; [|discriminate]. exists vz. simpl. repeat split; trivial; lia.
  - destruct ns as [|n nr]; [discriminate|].
    simpl in Ha. injection Ha as Ha Hr.
    inversion Hn as [|? ? Hn1 Hnr]; subst.
    inversion Hc as [|? ? Hc1 Hcr]; subst. simpl in Hs.
    pose proof (Zsum_nonneg nr Hnr) as Nn. unfold whole_pos in Hn1.
    destruct (group_step_whole g vz t n Hc1 Ha Hv Hp Hn1 ltac:(lia))
      as (vz1 & E1 & E2 & E3).
    simpl.
    destruct (IH nr _ vz1 Hcr Hr Hnr E1 E2 ltac:(lia)) as (vz' & F1 & F2 & F3).
    exists vz'. repeat split; trivial. simpl. lia.
Qed.

Lemma sum_whole vz : forall acc,
  (0 <= acc)%Z -> Forall whole_pos vz -> (acc + Zsum vz < 2 ^ 53)%Z ->
  fold_left PrimFloat.add (map of_Z vz) (of_Z acc) = of_Z (acc + Zsum vz).
Proof.
  induction vz as [|z r IH]; intros acc Ha Hp Hs; simpl.
  - now rewrite Z.add_0_r.
  - inversion Hp as [|? ? Hz Hr]; subst. simpl in Hs.
    pose proof (Zsum_nonneg r Hr). unfold whole_pos in Hz.
    rewrite of_Z_add by lia. rewrite IH; trivial; try lia.
    f_equal. lia.
Qed.

Lemma sum_amounts_map l :
  sum_amounts l = fold_left PrimFloat.add (map Txn.amount l) 0%float.
Proof.
  unfold sum_amounts. generalize 0%float.
  induction l as [|t r IH]; intro acc; simpl; trivial.
Qed.

Lemma own_positive g c v :
  Forall positive_value (values g) -> own g c = Some v -> positive_value v.
Proof.
  intros H E. apply own_In in E. rewrite Forall_forall in H. apply H.
  change v with (snd (c, v)). now apply in_map.
Qed.

(** What a step writes when the amount is greater than zero. *)
Lemma group_step_positive g t :
  Forall positive_value (values g) ->
  gt (Txn.amount t) 0%float = true ->
  positive_value
    (plus (or_zero (get g (Txn.category t))) (Txn.amount t)).
Proof.
  intros Hg Ht. unfold get.
  destruct (own g (Txn.category t)) as [v|] eqn:E.
  - pose proof (own_positive g _ v Hg E) as P.
    destruct v as [|n|m|m l]; simpl in P; try contradiction; [|exact I].
    unfold or_zero. simpl. rewrite (pos_truthy n P). simpl.
    now apply sum_pos.
  - destruct (existsb _ Object_prototype); [exact I|].
    now apply zero_sum_pos.
Qed.

Lemma group_fold_pos l : forall g,
  Forall (fun t => gt (Txn.amount t) 0%float = true) l ->
  Forall positive_value (values g) ->
  Forall positive_value (values (fold_left group_step l g)).
Proof.
  induction l as [|t r IH]; intros g Hl Hg; simpl; trivial.
  inversion Hl as [|? ? Ht Hr]; subst.
  apply IH; trivial. unfold group_step.
  apply values_set_Forall; trivial.
  now apply group_step_positive.
Qed.

(** C3, as amended.  When every expense amount is greater than zero, no
    category of the grouping has a zero total.  When no expense category is
    an array index or [__proto__], the keys are the categories in the order
    they are first seen among the expenses.  When no expense category names
    a member of [Object.prototype] and the amounts are positive whole numbers
    whose total is below 2^53, the values of the grouping are numbers that
    add up to the total expense. *)
Theorem expense_by_category_totals (txs : list Txn.t) (ns : list Z) :
  let expenses := filter (has_type "expense") txs in
  let grouped := expenseByCategory txs in
  (Forall (fun t => gt (Txn.amount t) 0%float = true) expenses ->
   Forall (fun v => is_zero_value v = false) (values grouped)) /\
  (Forall (fun t => array_index (Txn.category t) = None /\
                    Txn.category t <> "__proto__"%string) expenses ->
   keys grouped = first_seen (map Txn.category expenses)) /\
  (Forall (fun t => ~ In (Txn.category t) Object_prototype) expenses ->
   map Txn.amount expenses = map of_Z ns ->
   Forall whole_pos ns ->
   (Zsum ns < 2 ^ 53)%Z ->
   exists vs,
     values grouped = map Num vs /\
     sum_numbers vs = expense (calcTotals txs)).
Proof.
  intros expenses grouped.
  split; [|split].
  - intro Hpos.
    pose proof (group_fold_pos expenses [] Hpos (Forall_nil _)) as P.
    change (Forall positive_value (values grouped)) in P.
    revert P. apply Forall_impl. intros [|n|m|m l] Hv; simpl in *; trivial.
    apply pos_truthy in Hv. unfold truthy in Hv.
    apply negb_true_iff, orb_false_iff in Hv. apply Hv.
  - apply keys_first_seen.
  - intros Hc Ha Hn Hs.
    destruct (group_fold_whole expenses ns [] [] Hc Ha Hn eq_refl
                (Forall_nil _) Hs) as (vz & E1 & E2 & E3).
    change (values grouped = map (fun z => Num (of_Z z)) vz) in E1.
    simpl in E3.
    exists (map of_Z vz). split; [now rewrite map_map|].
    unfold sum_numbers.
    change 0%float with (of_Z 0).
    rewrite sum_whole by (trivial; lia).
    unfold calcTotals. simpl expense. fold expenses.
    rewrite sum_amounts_map, Ha. change 0%float with (of_Z 0).
    rewrite sum_whole by (trivial; lia).
    f_equal. lia.
Qed.

(** C3 as stated fails on each count.  An expense of 0 leaves its category
    in the grouping with a zero total, and so do an expense of 5 and one of
    -5.  With amounts 0.1, 0.3 and 0.7 the values of the grouping add up to
    1.0999999999999999 while the total expense is 1.1.  Expenses under the
    categories 2 and 1, in this order, give the keys 1 and 2.  An expense
    under [__proto__] leaves no key at all, and one under [constructor]
    leaves a text in place of a total. *)
Lemma expense_by_category_fails :
  values (expenseByCategory free_lunch) = [Num 0%float] /\
  values (expenseByCategory refund) = [Num 0%float] /\
  (values (expenseByCategory dimes)
   = [Num 0.79999999999999993%float; Num 0.3%float] /\
   sum_numbers [0.79999999999999993%float; 0.3%float]
   = 1.0999999999999999%float /\
   expense (calcTotals dimes) = 1.1%float /\
   1.0999999999999999%float <> 1.1%float) /\
  (keys (expenseByCategory numbered) = ["1"; "2"]%string /\
   first_seen (map Txn.category numbered) = ["2"; "1"]%string) /\
  (expenseByCategory proto_expense = [] /\
   expense (calcTotals proto_expense) = 5000%float) /\
  values (expenseByCategory constructor_expense)
  = [Str "constructor" [5000%float]].
Proof.
  repeat split; try reflexivity.
  intro H. discriminate (f_equal Prim2SF H).
Qed.

(** A month of whole amounts meets the conditions. *)
Lemma expense_by_category_totals_witness :
  Forall (fun v => is_zero_value v = false)
    (values (expenseByCategory month)) /\
  keys (expenseByCategory month) = ["Makanan"; "Parkir"]%string /\
  exists vs,
    values (expenseByCategory month) = map Num vs /\
    sum_numbers vs = expense (calcTotals month).
Proof.
  destruct (expense_by_category_totals month [2000000; 500000; 1500000]%Z)
    as (Hz & Hk & Hs).
  split; [|split].
  - apply Hz. repeat constructor.
  - apply Hk. repeat constructor; discriminate.
  - apply Hs; [|reflexivity | repeat constructor | reflexivity].
    repeat constructor; simpl; intuition discriminate.
Defined.

(** ** The doughnut (C9) *)

Lemma first_seen_In k l : In k (first_seen l) <-> In k l.
Proof.
  induction l as [|c r IH]; simpl; [tauto|].
  rewrite filter_In, IH.
  destruct (String.eqb_spec k c) as [->|N]; simpl; intuition congruence.
Qed.

Lemma first_seen_NoDup l : NoDup (first_seen l).
Proof.
  induction l as [|c r IH]; simpl; constructor.
  - rewrite filter_In, String.eqb_refl. simpl. intros [_ H]. discriminate.
  - now apply NoDup_filter.
Qed.

Lemma combine_keys_values (o : object) : combine (keys o) (values o) = o.
Proof.
  induction o as [|[k v] r IH]; simpl; trivial. now rewrite IH.
Qed.





(** * Further properties of the script *)

(** ** More facts about binary64 arithmetic *)

Local Open Scope Z_scope.

Lemma binary_round_aux_signed s m e l :
  0 < m -> emin <= e ->
  match binary_round_aux prec emax s m e l with
  | S754_infinity s' | S754_finite s' _ _ => s' = s
  | _ => False
  end.
Proof.
  intros Hm He. unfold binary_round_aux.
  destruct (shr_fexp_pos m e l Hm He) as [P1 E1].
  destruct (shr_fexp prec emax m e l) as [mrs' e']. simpl in P1, E1.
  assert (P2 : 0 < round_nearest_even (shr_m mrs') (loc_of_shr_record mrs')).
  { destruct (loc_of_shr_record mrs') as [|[]]; simpl; try lia.
    destruct (Z.even (shr_m mrs')); lia. }
  destruct (shr_fexp_pos _ e' loc_Exact P2 E1) as [P3 _].
  destruct (shr_fexp prec emax _ e' loc_Exact) as [mrs'' e'']. simpl in P3.
  destruct (shr_m mrs'') as [|q|q]; try lia.
  destruct (e'' <=? emax - prec); reflexivity.
Qed.

Lemma binary_round_signed s m e :
  emin <= e ->
  match binary_round prec emax s m e with
  | S754_infinity s' | S754_finite s' _ _ => s' = s
  | _ => False
  end.
Proof.
  intro He. unfold binary_round, shl_align.
  set (f := fexp prec emax (Z.pos (digits2_pos m) + e)).
  assert (emin <= f) by (unfold f, fexp; lia).
  destruct (f - e) as [|d|d] eqn:D; apply binary_round_aux_signed; lia.
Qed.

Lemma binary_round_aux_opp m e l :
  binary_round_aux prec emax true m e l
  = SFopp (binary_round_aux prec emax false m e l).
Proof.
  unfold binary_round_aux.
  destruct (shr_fexp prec emax m e l) as [mrs' e'].
  destruct (shr_fexp prec emax _ e' loc_Exact) as [mrs'' e''].
  destruct (shr_m mrs'') as [|q|q]; trivial.
  destruct (e'' <=? emax - prec); reflexivity.
Qed.

Lemma binary_round_opp m e :
  binary_round prec emax true m e = SFopp (binary_round prec emax false m e).
Proof.
  unfold binary_round. destruct (shl_align _ _ _) as [mz ez].
  apply binary_round_aux_opp.
Qed.

(** Canonical mantissas: a smaller exponent means a smaller number. *)
Lemma canonical_lt mx ex my ey :
  valid_binary (S754_finite false mx ex) = true ->
  valid_binary (S754_finite false my ey) = true ->
  ex < ey -> Z.pos mx < Z.pos my * 2 ^ (ey - ex).
Proof.
  unfold valid_binary, bounded, canonical_mantissa, fexp, SpecFloat.emin.
  unfold prec, emax.
  intros Vx Vy Hlt.
  apply andb_true_iff in Vx, Vy. destruct Vx as [Vx _], Vy as [Vy _].
  apply Z.eqb_eq in Vx, Vy.
  pose proof (digits2_bounds mx) as [_ Ux].
  pose proof (digits2_bounds my) as [Ly _].
  assert (Dx : Z.pos (digits2_pos mx) <= 53) by lia.
  assert (Dy : Z.pos (digits2_pos my) = 53) by lia.
  rewrite Dy in Ly.
  assert (A : 2 ^ Z.pos (digits2_pos mx) <= 2 ^ 53)
    by (apply Z.pow_le_mono_r; lia).
  assert (C : 2 ^ 1 <= 2 ^ (ey - ex)) by (apply Z.pow_le_mono_r; lia).
  change (2 ^ (53 - 1)) with 4503599627370496 in Ly.
  change (2 ^ 53) with 9007199254740992 in A.
  change (2 ^ 1) with 2 in C.
  assert (4503599627370496 * 2 <= Z.pos my * 2 ^ (ey - ex))
    by (apply Z.mul_le_mono_nonneg; lia).
  lia.
Qed.

Lemma SFsub_below x y :
  valid_binary x = true -> valid_binary y = true ->
  sf_pos x -> SFcompare x y = Some Lt -> sf_neg (SFsub prec emax x y).
Proof.
  intros Vx Vy Hx Hc.
  destruct x as [sx|sx| |sx mx ex]; simpl in Hx; try contradiction; subst sx.
  - destruct y as [sy|[]| |sy my ey]; simpl in Hc; discriminate.
  - destruct y as [sy|[]| |[] my ey]; simpl in Hc; try discriminate;
      try reflexivity.
    pose proof (valid_exponent _ _ _ Vx) as Ex.
    pose proof (valid_exponent _ _ _ Vy) as Ey.
    assert (L : ex < ey \/ (ex = ey /\ (mx < my)%positive)).
    { destruct (Z.compare_spec ex ey); try discriminate; [right|left]; trivial.
      split; trivial.
      change (Pos.compare_cont Eq mx my) with (Pos.compare mx my) in Hc.
      apply Pos.compare_lt_iff. now injection Hc. }
    unfold SFsub, cond_Zopp.
    assert (M : Z.min ex ey = ex) by lia. rewrite M.
    pose proof (shl_align_fst mx ex ex (Z.le_refl _)) as Sx.
    pose proof (shl_align_fst my ey ex ltac:(lia)) as Sy.
    rewrite Z.sub_diag in Sx. simpl in Sx.
    assert (D : Z.pos (fst (shl_align mx ex ex))
                - Z.pos (fst (shl_align my ey ex)) < 0).
    { rewrite Sx, Sy. destruct L as [L|[-> L]].
      - pose proof (canonical_lt mx ex my ey Vx Vy L). lia.
      - rewrite Z.sub_diag. lia. }
    destruct (Z.pos (fst (shl_align mx ex ex))
              - Z.pos (fst (shl_align my ey ex))) as [|d|d]; try lia.
    simpl binary_normalize.
    pose proof (binary_round_signed true d ex Ex) as S.
    destruct (binary_round prec emax true d ex); simpl; tauto.
Qed.

Lemma SFdiv_finite_signed sx x sy m e :
  sf_signed sx x ->
  sf_signed (xorb sx sy) (SFdiv prec emax x (S754_finite sy m e)).
Proof.
  intros Hx.
  destruct x as [s|s| |s mx ex]; simpl in *; try contradiction; subst;
    trivial.
  pose proof (div_core_nonneg mx ex m e) as Q.
  destruct (SFdiv_core_binary _ _ _ _ _ _) as [[q e'] l].
  pose proof (binary_round_aux_sign (xorb sx sy) q e' l Q) as S.
  destruct (binary_round_aux _ _ _ _ _ _); simpl; tauto.
Qed.

Lemma SFmul_finite_signed sx x sy m e :
  sf_signed sx x ->
  sf_signed (xorb sx sy) (SFmul prec emax x (S754_finite sy m e)).
Proof.
  intros Hx.
  destruct x as [s|s| |s mx ex]; simpl in *; try contradiction; subst;
    trivial.
  assert (Q : 0 <= Z.pos (mx * m)) by lia.
  pose proof (binary_round_aux_sign (xorb sx sy) _ (ex + e) loc_Exact Q) as S.
  destruct (binary_round_aux _ _ _ _ _ _); simpl; tauto.
Qed.

Lemma SFsub_of_Z a b :
  0 <= a < 2 ^ 53 -> 0 <= b < 2 ^ 53 ->
  SFsub prec emax (SF_of_Z a) (SF_of_Z b)
  = if b <=? a then SF_of_Z (a - b) else SFopp (SF_of_Z (b - a)).
Proof.
  intros Ha Hb.
  destruct a as [|p|p]; try lia; destruct b as [|q|q]; try lia.
  - reflexivity.
  - simpl Z.sub. rewrite SF_of_Z_pos by lia. reflexivity.
  - rewrite Z.sub_0_r. rewrite SF_of_Z_pos by lia. reflexivity.
  - rewrite (SF_of_Z_pos p), (SF_of_Z_pos q) by lia.
    pose proof (digits2_le_prec p ltac:(lia)) as Dp.
    pose proof (digits2_le_prec q ltac:(lia)) as Dq.
    set (dp := Z.pos (digits2_pos p)) in *.
    set (dq := Z.pos (digits2_pos q)) in *.
    assert (0 < dp) by (unfold dp; lia). assert (0 < dq) by (unfold dq; lia).
    unfold prec in Dp, Dq.
    set (mp := Z.to_pos _). set (mq := Z.to_pos _).
    assert (Hp : Z.pos mp = Z.pos p * 2 ^ (53 - dp)).
    { unfold mp, prec. rewrite Z2Pos.id; trivial.
      assert (0 < 2 ^ (53 - dp)) by (apply Z.pow_pos_nonneg; lia). nia. }
    assert (Hq : Z.pos mq = Z.pos q * 2 ^ (53 - dq)).
    { unfold mq, prec. rewrite Z2Pos.id; trivial.
      assert (0 < 2 ^ (53 - dq)) by (apply Z.pow_pos_nonneg; lia). nia. }
    unfold SFsub. set (ez := Z.min (dp - prec) (dq - prec)).
    unfold cond_Zopp.
    assert (Ez : ez <= 0) by (unfold ez, prec; lia).
    assert (Sp : Z.pos (fst (shl_align mp (dp - prec) ez))
                 = Z.pos p * 2 ^ (- ez)).
    { rewrite shl_align_fst by (unfold ez; lia). rewrite Hp.
      rewrite <- Z.mul_assoc, <- Z.pow_add_r by (unfold ez, prec; lia).
      f_equal. f_equal. unfold prec. lia. }
    assert (Sq : Z.pos (fst (shl_align mq (dq - prec) ez))
                 = Z.pos q * 2 ^ (- ez)).
    { rewrite shl_align_fst by (unfold ez; lia). rewrite Hq.
      rewrite <- Z.mul_assoc, <- Z.pow_add_r by (unfold ez, prec; lia).
      f_equal. f_equal. unfold prec. lia. }
    assert (P2 : 0 < 2 ^ (- ez)) by (apply Z.pow_pos_nonneg; lia).
    assert (Range : forall r : positive,
               Z.pos r < 2 ^ 53 ->
               forall s, Z.pos s = Z.pos r * 2 ^ (- ez) ->
               binary_round prec emax false s ez = SF_of_Z (Z.pos r)).
    { intros r Hr s Hs.
      pose proof (digits2_le_prec r Hr) as Dr.
      pose proof (digits2_bounds r) as Br.
      rewrite (binary_round_exact r (- ez) s ez); try lia.
      - rewrite (SF_of_Z_pos r) by lia. f_equal. lia.
      - unfold SpecFloat.emin, prec, emax in *. lia. }
    destruct (Z.pos (fst (shl_align mp (dp - prec) ez))
              - Z.pos (fst (shl_align mq (dq - prec) ez))) as [|d|d] eqn:D;
      rewrite Sp, Sq in D.
    + assert (Z.pos p = Z.pos q) by nia.
      destruct (Z.leb_spec (Z.pos q) (Z.pos p)); [|lia].
      replace (Z.pos p - Z.pos q) with 0 by lia. reflexivity.
    + assert (Z.pos q < Z.pos p) by nia.
      destruct (Z.leb_spec (Z.pos q) (Z.pos p)); [|lia].
      simpl binary_normalize.
      destruct (Z.pos p - Z.pos q) as [|r|r] eqn:R; try lia.
      apply Range; [lia|]. rewrite <- R. nia.
    + assert (Z.pos p < Z.pos q) by nia.
      destruct (Z.leb_spec (Z.pos q) (Z.pos p)); [lia|].
      simpl binary_normalize. rewrite binary_round_opp. f_equal.
      destruct (Z.pos q - Z.pos p) as [|r|r] eqn:R; try lia.
      apply Range; [lia|]. rewrite <- R.
      assert (Z.neg d = - Z.pos d) by reflexivity. nia.
Qed.

Local Close Scope Z_scope.

Lemma of_Z_sub a b :
  (0 <= a < 2 ^ 53)%Z -> (0 <= b < 2 ^ 53)%Z ->
  (of_Z a - of_Z b)%float
  = if (b <=? a)%Z then of_Z (a - b) else (- of_Z (b - a))%float.
Proof.
  intros Ha Hb. apply Prim2SF_inj.
  rewrite sub_spec, !of_Z_SF by lia.
  rewrite SFsub_of_Z by lia.
  destruct (Z.leb_spec b a).
  - now rewrite of_Z_SF by lia.
  - now rewrite opp_spec, of_Z_SF by lia.
Qed.

Lemma nonpos_cases v :
  le v 0%float = true <->
  match Prim2SF v with
  | S754_zero _ => True
  | S754_infinity s | S754_finite s _ _ => s = true
  | S754_nan => False
  end.
Proof.
  unfold le. rewrite leb_spec, SF_zero. unfold SFleb.
  destruct (Prim2SF v) as [s|[]| |[] m e]; simpl;
    split; intro; try discriminate; try tauto; try reflexivity.
Qed.

Lemma Math_max_zero_nonpos v :
  le v 0%float = true -> Math_max 0%float v = 0%float.
Proof.
  intro H. apply nonpos_cases in H. unfold Math_max.
  pose proof (compare_cases 0%float v) as C. rewrite SF_zero in C.
  destruct (0 ?= v)%float; trivial;
    destruct (Prim2SF v) as [s|s| |s m e]; simpl in *; subst;
    try contradiction; discriminate.
Qed.

Lemma Math_min_hundred_nonpos v :
  le v 0%float = true -> Math_min 100%float v = v.
Proof.
  intro H. apply nonpos_cases in H. unfold Math_min.
  pose proof (compare_cases 100%float v) as C. rewrite SF_hundred in C.
  destruct (100 ?= v)%float; trivial;
    destruct (Prim2SF v) as [s|s| |s m e]; simpl in *; subst;
    try contradiction; discriminate.
Qed.

Lemma signed_nonpos v : sf_signed true (Prim2SF v) -> le v 0%float = true.
Proof.
  intro H. apply nonpos_cases.
  destruct (Prim2SF v); simpl in *; tauto.
Qed.

Lemma neg_lt_zero v : sf_neg (Prim2SF v) -> gt 0%float v = true.
Proof.
  intro H. unfold gt. rewrite ltb_spec, SF_zero. unfold SFltb.
  destruct (Prim2SF v) as [s|s| |s m e]; simpl in *; try contradiction;
    subst; reflexivity.
Qed.

(** Spending more than a positive income: the balance is below zero and the
    clamped percentage is [0]. *)
Lemma overspent_percent (inc exp : number) :
  gt exp inc = true -> gt inc 0%float = true ->
  gt 0%float (inc - exp)%float = true /\
  Math_max 0%float (Math_min 100%float ((inc - exp) / inc * 100)%float)
  = 0%float.
Proof.
  intros Hlt Hpos.
  assert (C : SFcompare (Prim2SF inc) (Prim2SF exp) = Some Lt).
  { unfold gt in Hlt. rewrite ltb_spec in Hlt. unfold SFltb in Hlt.
    destruct (SFcompare (Prim2SF inc) (Prim2SF exp)) as [[]|];
      trivial; discriminate. }
  apply gt_zero_SF in Hpos.
  assert (B : sf_neg (Prim2SF (inc - exp)%float)).
  { rewrite sub_spec. apply SFsub_below; trivial; apply Prim2SF_valid. }
  split; [now apply neg_lt_zero|].
  assert (V : le ((inc - exp) / inc * 100)%float 0%float = true).
  { apply signed_nonpos. rewrite mul_spec, div_spec, SF_hundred.
    apply (SFmul_finite_signed true _ false).
    destruct (Prim2SF inc) as [s|s| |s m e] eqn:E; simpl in Hpos;
      try contradiction; subst s.
    - destruct (Prim2SF exp) as [s|[]| |s m e]; simpl in C; discriminate.
    - apply (SFdiv_finite_signed true _ false).
      destruct (Prim2SF (inc - exp)%float); simpl in *; tauto. }
  rewrite (Math_min_hundred_nonpos _ V). now apply Math_max_zero_nonpos.
Qed.

(** Nothing saved: with a balance of zero or less and a positive target the
    percentage is [0] and the whole target remains. *)
Lemma nothing_saved (balance target : number) :
  le balance 0%float = true -> gt target 0%float = true ->
  Math_max 0%float balance = 0%float /\
  Math_min 100%float (0 / target * 100)%float = 0%float /\
  (target - 0)%float = target.
Proof.
  intros Hb Ht. apply gt_zero_SF in Ht.
  split; [now apply Math_max_zero_nonpos|].
  assert (Z : (0 / target * 100)%float = 0%float).
  { apply Prim2SF_inj. rewrite mul_spec, div_spec, SF_hundred, SF_zero.
    destruct (Prim2SF target) as [s|s| |s m e]; simpl in *;
      try contradiction; subst; reflexivity. }
  split; [rewrite Z; reflexivity|].
  apply Prim2SF_inj. rewrite sub_spec, SF_zero.
  destruct (Prim2SF target) as [s|s| |s m e]; simpl in *;
    try contradiction; reflexivity.
Qed.

(** ** Overspending, and saving nothing *)

(** X1: whenever the overspend alert is shown, the balance on the page is
    below zero and the balance bar is empty. *)
Theorem overspent_bar_empty (st : app) :
  alertBanner_visible (dom (renderSummary st)) = true ->
  gt 0%float (totalBalance (dom (renderSummary st))) = true /\
  balanceBar_width (dom (renderSummary st)) = 0%float.
Proof.
  intro H.
  change (overspendAlert (transactions st) = true) in H.
  unfold overspendAlert in H. apply andb_true_iff in H. destruct H as [H1 H2].
  change (gt 0%float (balance (calcTotals (transactions st))) = true /\
          balancePercent (transactions st) = 0%float).
  unfold balancePercent. rewrite H2.
  now apply overspent_percent.
Qed.

Lemma overspent_bar_empty_witness :
  balanceBar_width (dom (renderSummary (page overdrawn None))) = 0%float.
Proof.
  apply (overspent_bar_empty (page overdrawn None)). reflexivity.
Defined.

(** X2: with a goal whose target is positive and a balance of zero or less,
    nothing counts as saved: the panel shows 0 of the target, an empty bar,
    and the whole target as remaining. *)
Theorem goal_nothing_saved (st : app) (goal : Goal.t) :
  savingsGoal st = Some goal ->
  gt (Goal.target goal) 0%float = true ->
  le (balance (calcTotals (transactions st))) 0%float = true ->
  let d := dom (renderGoal st) in
  savingsDisplay_hidden d = false /\
  goalProgress d = (0%float, Goal.target goal) /\
  goalBar_width d = 0%float /\
  goalNote d = NoteRemaining (Goal.target goal) 0%float.
Proof.
  intros Hg Ht Hb d.
  destruct (nothing_saved _ _ Hb Ht) as (E1 & E2 & E3).
  unfold d, renderGoal. rewrite Hg. cbv zeta.
  cbn [dom set_dom write_goal write_savingsDisplay savingsDisplay_hidden
       goalProgress goalBar_width goalNote].
  rewrite E1, E2, E3. repeat split; reflexivity.
Qed.

Lemma goal_nothing_saved_witness :
  goalNote (dom (renderGoal (page overdrawn (Some laptop))))
  = NoteRemaining 10000000%float 0%float.
Proof.
  apply (goal_nothing_saved (page overdrawn (Some laptop)) laptop);
    reflexivity.
Defined.

(** ** Whole amounts *)

Lemma Zsum_perm l l' : Permutation l l' -> Zsum l = Zsum l'.
Proof.
  unfold Zsum.
  induction 1 as [|x l l' H IH|x y l|l l' l'' H1 IH1 H2 IH2]; simpl; lia.
Qed.

Lemma whole_amounts_perm (p : Txn.t -> bool) txs txs' zs :
  Permutation txs txs' ->
  map Txn.amount (filter p txs) = map of_Z zs ->
  exists zs', map Txn.amount (filter p txs') = map of_Z zs' /\
              Permutation zs zs'.
Proof.
  intros Hp Hz.
  assert (P : Permutation (map Txn.amount (filter p txs'))
                (map of_Z zs)).
  { rewrite <- Hz. apply Permutation_map, Permutation_filter_same.
    now symmetry. }
  apply Permutation_map_inv in P. exact P.
Qed.

Lemma whole_totals (txs : list Txn.t) (ins outs : list Z) :
  map Txn.amount (filter (has_type "income") txs) = map of_Z ins ->
  map Txn.amount (filter (has_type "expense") txs) = map of_Z outs ->
  Forall whole_pos ins -> Forall whole_pos outs ->
  (Zsum ins < 2 ^ 53)%Z -> (Zsum outs < 2 ^ 53)%Z ->
  calcTotals txs
  = mkTotals (of_Z (Zsum ins)) (of_Z (Zsum outs))
      (if (Zsum outs <=? Zsum ins)%Z
       then of_Z (Zsum ins - Zsum outs)
       else (- of_Z (Zsum outs - Zsum ins))%float).
Proof.
  intros Hi He Pi Pe Bi Be.
  assert (Ei : sum_amounts (filter (has_type "income") txs)
               = of_Z (Zsum ins)).
  { rewrite sum_amounts_map, Hi. change 0%float with (of_Z 0).
    now rewrite sum_whole by (trivial; lia). }
  assert (Ee : sum_amounts (filter (has_type "expense") txs)
               = of_Z (Zsum outs)).
  { rewrite sum_amounts_map, He. change 0%float with (of_Z 0).
    now rewrite sum_whole by (trivial; lia). }
  unfold calcTotals. cbv zeta. rewrite Ei, Ee. f_equal.
  pose proof (Zsum_nonneg ins Pi). pose proof (Zsum_nonneg outs Pe).
  apply of_Z_sub; lia.
Qed.

(** X3: when the income amounts and the expense amounts are positive whole
    numbers, each kind with a total below 2^53, the three totals are exact:
    income and expense are the whole sums and the balance is their
    difference, with its sign; and the totals do not depend on the order of
    the transactions. *)
Theorem whole_totals_exact (txs : list Txn.t) (ins outs : list Z) :
  map Txn.amount (filter (has_type "income") txs) = map of_Z ins ->
  map Txn.amount (filter (has_type "expense") txs) = map of_Z outs ->
  Forall whole_pos ins -> Forall whole_pos outs ->
  (Zsum ins < 2 ^ 53)%Z -> (Zsum outs < 2 ^ 53)%Z ->
  let T := calcTotals txs in
  income T = of_Z (Zsum ins) /\
  expense T = of_Z (Zsum outs) /\
  balance T = (if (Zsum outs <=? Zsum ins)%Z
               then of_Z (Zsum ins - Zsum outs)
               else (- of_Z (Zsum outs - Zsum ins))%float) /\
  (forall txs', Permutation txs txs' -> calcTotals txs' = T).
Proof.
  intros Hi He Pi Pe Bi Be T.
  pose proof (whole_totals txs ins outs Hi He Pi Pe Bi Be) as E.
  fold T in E. rewrite E. cbn [income expense balance].
  split; [reflexivity|]. split; [reflexivity|]. split; [reflexivity|].
  intros txs' Hp.
  destruct (whole_amounts_perm _ txs txs' ins Hp Hi) as (ins' & Hi' & Qi).
  destruct (whole_amounts_perm _ txs txs' outs Hp He) as (outs' & He' & Qe).
  rewrite (Zsum_perm _ _ Qi), (Zsum_perm _ _ Qe) in *.
  apply whole_totals; trivial.
  - revert Pi. apply Permutation_Forall. exact Qi.
  - revert Pe. apply Permutation_Forall. exact Qe.
Qed.

Lemma whole_totals_exact_witness :
  balance (calcTotals month) = 1000000%float.
Proof.
  apply (whole_totals_exact month [5000000%Z] [2000000%Z; 500000%Z; 1500000%Z]);
    try reflexivity; repeat constructor.
Defined.

(** ** Rendering again changes nothing *)

(** Four steps that commute, each absorbing an earlier run of itself across
    a change [w] of the data. *)
Section FourSteps.

Variable X : Type.
Variables s t c g w : X -> X.
Hypothesis st_comm : forall x, s (t x) = t (s x).
Hypothesis sc_comm : forall x, s (c x) = c (s x).
Hypothesis sg_comm : forall x, s (g x) = g (s x).
Hypothesis tc_comm : forall x, t (c x) = c (t x).
Hypothesis tg_comm : forall x, t (g x) = g (t x).
Hypothesis cg_comm : forall x, c (g x) = g (c x).
Hypothesis s_absorb : forall x, s (w (s x)) = s (w x).
Hypothesis t_absorb : forall x, t (w (t x)) = t (w x).
Hypothesis c_absorb : forall x, c (w (c x)) = c (w x).
Hypothesis g_absorb : forall x, g (w (g x)) = g (w x).

Lemma four_steps_absorb x :
  g (c (t (s (w (g (c (t (s x)))))))) = g (c (t (s (w x)))).
Proof.
  transitivity (g (c (t (s (w (c (t (s x)))))))).
  { generalize (c (t (s x))). intro z.
    rewrite <- !cg_comm, <- !tg_comm, <- !sg_comm. now rewrite g_absorb. }
  transitivity (g (c (t (s (w (t (s x))))))).
  { generalize (t (s x)). intro z.
    rewrite <- !tc_comm, <- !sc_comm. now rewrite c_absorb. }
  transitivity (g (c (t (s (w (s x)))))).
  { generalize (s x). intro z. rewrite <- !st_comm. now rewrite t_absorb. }
  now rewrite s_absorb.
Qed.

End FourSteps.

Section Renders.

Variable localeCompare : string -> string -> Z.

(** The two renderers that test for emptiness, with the test moved into the
    values they write. *)
Lemma renderTable_writes st :
  renderTable localeCompare st
  = set_dom
      (write_table (tableRows localeCompare (filterType (dom st))
                      (transactions st))
         (List.length (tableRows localeCompare (filterType (dom st))
                         (transactions st)) =? 0)%nat
         (dom st))
      st.
Proof.
  unfold renderTable.
  destruct (tableRows localeCompare (filterType (dom st)) (transactions st));
    reflexivity.
Qed.

Lemma renderPieChart_writes st :
  renderPieChart st
  = set_pieChart
      (if (List.length (keys (expenseByCategory (transactions st))) =? 0)%nat
       then None
       else Some (mkPie (keys (expenseByCategory (transactions st)))
                    (values (expenseByCategory (transactions st)))
                    (firstn
                       (List.length
                          (keys (expenseByCategory (transactions st))))
                       PIE_COLORS)))
      (set_dom
         (write_pieEmpty
            (List.length (keys (expenseByCategory (transactions st))) =? 0)%nat
            (dom st))
         st).
Proof.
  unfold renderPieChart.
  destruct (List.length (keys (expenseByCategory (transactions st))) =? 0)%nat;
    reflexivity.
Qed.

Ltac two_steps :=
  let st := fresh "st" in
  let g := fresh "g" in
  intro st; rewrite ?renderTable_writes, ?renderPieChart_writes;
  destruct st as [? g ? ? []]; try destruct g; reflexivity.

Lemma summary_table : forall st,
  renderSummary (renderTable localeCompare st)
  = renderTable localeCompare (renderSummary st).
Proof. two_steps. Qed.

Lemma summary_pie : forall st,
  renderSummary (renderPieChart st) = renderPieChart (renderSummary st).
Proof. two_steps. Qed.

Lemma summary_goal : forall st,
  renderSummary (renderGoal st) = renderGoal (renderSummary st).
Proof. two_steps. Qed.

Lemma table_pie : forall st,
  renderTable localeCompare (renderPieChart st)
  = renderPieChart (renderTable localeCompare st).
Proof. two_steps. Qed.

Lemma table_goal : forall st,
  renderTable localeCompare (renderGoal st)
  = renderGoal (renderTable localeCompare st).
Proof. two_steps. Qed.

Lemma pie_goal : forall st,
  renderPieChart (renderGoal st) = renderGoal (renderPieChart st).
Proof. two_steps. Qed.

Lemma summary_absorb l : forall st,
  renderSummary (store l (renderSummary st)) = renderSummary (store l st).
Proof. two_steps. Qed.

Lemma table_absorb l : forall st,
  renderTable localeCompare (store l (renderTable localeCompare st))
  = renderTable localeCompare (store l st).
Proof. two_steps. Qed.

Lemma pie_absorb l : forall st,
  renderPieChart (store l (renderPieChart st)) = renderPieChart (store l st).
Proof. two_steps. Qed.

Lemma goal_absorb l : forall st,
  renderGoal (store l (renderGoal st)) = renderGoal (store l st).
Proof. two_steps. Qed.


Lemma summary_again : forall st,
  renderSummary (renderSummary st) = renderSummary st.
Proof. two_steps. Qed.

Lemma table_again : forall st,
  renderTable localeCompare (renderTable localeCompare st)
  = renderTable localeCompare st.
Proof. two_steps. Qed.

Lemma pie_again : forall st,
  renderPieChart (renderPieChart st) = renderPieChart st.
Proof. two_steps. Qed.

Lemma goal_again : forall st, renderGoal (renderGoal st) = renderGoal st.
Proof. two_steps. Qed.

Lemma refresh_overwrite l st :
  refresh localeCompare (store l (refresh localeCompare st))
  = refresh localeCompare (store l st).
Proof.
  unfold refresh, renderCharts.
  apply four_steps_absorb;
    auto using summary_table, summary_pie, summary_goal, table_pie,
      table_goal, pie_goal, summary_absorb, table_absorb, pie_absorb,
      goal_absorb.
Qed.

Lemma refresh_again st :
  refresh localeCompare (refresh localeCompare st) = refresh localeCompare st.
Proof.
  unfold refresh, renderCharts.
  apply (four_steps_absorb app renderSummary (renderTable localeCompare)
           renderPieChart renderGoal (fun x => x));
    auto using summary_table, summary_pie, summary_goal, table_pie,
      table_goal, pie_goal, summary_again, table_again, pie_again,
      goal_again.
Qed.

Lemma store_store l l' st : store l (store l' st) = store l st.
Proof. reflexivity. Qed.

Lemma refresh_store_transactions l st :
  transactions (refresh localeCompare (store l st)) = l.
Proof.
  destruct (refresh_frame localeCompare (store l st)) as (-> & _).
  reflexivity.
Qed.

End Renders.

Section Store.

Variable parseFloat : string -> number.
Variable localeCompare : string -> string -> Z.

Lemma deleteTransaction_store id st :
  deleteTransaction localeCompare id st
  = refresh localeCompare
      (store (filter (fun t => negb (String.eqb (Txn.id t) id))
                (transactions st)) st).
Proof. reflexivity. Qed.

Lemma addTransaction_store uid f st :
  addTransaction parseFloat localeCompare uid f st
  = refresh localeCompare
      (store (transactions st ++
              [Txn.make uid (f_type f) (parseFloat (f_amount f))
                 (f_category f) (f_date f) (trim (f_desc f))]) st).
Proof. reflexivity. Qed.

Lemma perform_store st a :
  exists l, perform parseFloat localeCompare st a
            = refresh localeCompare (store l st).
Proof.
  destruct a as [uid f|id]; eexists;
    [apply addTransaction_store | apply deleteTransaction_store].
Qed.

(** X4: the page is up to date after every action: refreshing once more
    changes nothing, and neither does refreshing twice in a row. *)
Theorem page_up_to_date (st : app) (a : action) :
  refresh localeCompare (refresh localeCompare st) = refresh localeCompare st
  /\ refresh localeCompare (perform parseFloat localeCompare st a)
     = perform parseFloat localeCompare st a.
Proof.
  split; [apply refresh_again|].
  destruct (perform_store st a) as [l ->]. apply refresh_again.
Qed.

Lemma delete_delete i j st :
  deleteTransaction localeCompare i (deleteTransaction localeCompare j st)
  = refresh localeCompare
      (store (filter (fun t => negb (String.eqb (Txn.id t) i))
                (filter (fun t => negb (String.eqb (Txn.id t) j))
                   (transactions st))) st).
Proof.
  rewrite (deleteTransaction_store i), (deleteTransaction_store j).
  rewrite refresh_store_transactions, refresh_overwrite, store_store.
  reflexivity.
Qed.

(** X5: deleting the same id twice is deleting it once; and two deletions
    can be made in either order, with the same list, stored copy and page,
    as long as the page ends with widths that are numbers. *)
Theorem delete_twice_and_swap (i j : string) (st : app) :
  deleteTransaction localeCompare i (deleteTransaction localeCompare i st)
  = deleteTransaction localeCompare i st /\
  (bars_drawn
     (deleteTransaction localeCompare i (deleteTransaction localeCompare j st))
   = true ->
   deleteTransaction localeCompare i (deleteTransaction localeCompare j st)
   = deleteTransaction localeCompare j (deleteTransaction localeCompare i st)).
Proof.
  split.
  - rewrite delete_delete, deleteTransaction_store. do 2 f_equal.
    rewrite filter_twice. apply filter_ext. intro t.
    now destruct (String.eqb (Txn.id t) i).
  - intros _. rewrite !delete_delete. do 2 f_equal.
    rewrite !filter_twice. apply filter_ext. intro t. apply andb_comm.
Qed.

(** X6: adding a transaction under an id no transaction carries and deleting
    that id again gives back the list; the stored copy and the page are back
    as well when the state was the outcome of an action whose page has
    widths that are numbers. *)
Theorem add_then_delete (uid : string) (f : form) (st : app) :
  ~ In uid (ids (transactions st)) ->
  let st' :=
    deleteTransaction localeCompare uid
      (addTransaction parseFloat localeCompare uid f st) in
  transactions st' = transactions st /\
  (forall st0 a,
      st = perform parseFloat localeCompare st0 a ->
      bars_drawn st = true -> st' = st).
Proof.
  intros Hfresh st'.
  assert (E : st' = refresh localeCompare (store (transactions st) st)).
  { unfold st'. rewrite deleteTransaction_store, addTransaction_store.
    rewrite refresh_store_transactions, refresh_overwrite, store_store.
    do 2 f_equal. rewrite filter_app. simpl. rewrite String.eqb_refl. simpl.
    rewrite app_nil_r. apply filter_absent.
    intros t Ht E. apply Hfresh. unfold ids. rewrite <- E. now apply in_map. }
  split.
  - rewrite E. apply refresh_store_transactions.
  - intros st0 a Ha _. rewrite E.
    destruct (perform_store st0 a) as [l El]. rewrite Ha, El.
    now rewrite refresh_store_transactions, refresh_overwrite, store_store.
Qed.

End Store.

Lemma delete_twice_and_swap_witness :
  deleteTransaction codeCompare "d2"
    (deleteTransaction codeCompare "d3" (page month (Some laptop)))
  = deleteTransaction codeCompare "d3"
      (deleteTransaction codeCompare "d2" (page month (Some laptop))).
Proof.
  apply (delete_twice_and_swap codeCompare "d2" "d3"
           (page month (Some laptop))).
  vm_compute. reflexivity.
Defined.

Lemma add_then_delete_witness :
  let st := deleteTransaction codeCompare "zz" (page salary_and_food None) in
  deleteTransaction codeCompare "zz"
    (addTransaction parseWhole codeCompare "zz" book_form st)
  = st.
Proof.
  cbv zeta.
  apply (add_then_delete parseWhole codeCompare "zz" book_form
           (deleteTransaction codeCompare "zz" (page salary_and_food None)))
    with (st0 := page salary_and_food None) (a := Delete "zz").
  - intro H. vm_compute in H. destruct H as [E|[E|[]]]; discriminate.
  - reflexivity.
  - vm_compute. reflexivity.
Defined.

Section Ledger.

Variable parseFloat : string -> number.
Variable localeCompare : string -> string -> Z.

Lemma perform_storage st a :
  let st' := perform parseFloat localeCompare st a in
  savingsGoal st' = savingsGoal st /\
  sft_goal (storage st') = sft_goal (storage st) /\
  sft_transactions (storage st') = Some (transactions st').
Proof.
  cbv zeta. destruct (perform_store parseFloat localeCompare st a) as [l ->].
  rewrite refresh_store_transactions.
  destruct (refresh_frame localeCompare (store l st)) as (_ & -> & ->).
  repeat split; reflexivity.
Qed.

(** X7: however many transactions are added and deleted, the goal stays
    as it is, in memory and under its key in the store. *)
Theorem goal_untouched_by_actions (st : app) (acts : list action) :
  let st' := run parseFloat localeCompare st acts in
  savingsGoal st' = savingsGoal st /\
  sft_goal (storage st') = sft_goal (storage st).
Proof.
  cbv zeta. unfold run.
  induction acts as [|a acts IH] using rev_ind; simpl.
  - split; reflexivity.
  - rewrite fold_left_app. simpl.
    destruct IH as (I1 & I2).
    destruct (perform_storage
                (fold_left (perform parseFloat localeCompare) acts st) a)
      as (P1 & P2 & _).
    rewrite P1, P2, I1, I2. split; reflexivity.
Qed.

Lemma sum_amounts_last (p : Txn.t -> bool) l t :
  sum_amounts (filter p (l ++ [t]))
  = if p t then (sum_amounts (filter p l) + Txn.amount t)%float
    else sum_amounts (filter p l).
Proof.
  unfold sum_amounts. rewrite filter_app. simpl.
  destruct (p t); [|now rewrite app_nil_r].
  now rewrite fold_left_app.
Qed.

(** X8: adding a transaction puts it last in the list, with the amount
    [parseFloat] read and the trimmed description; an income adds its amount
    to the income total, an expense to the expense total, and a transaction
    of any other type changes neither total. *)
Theorem add_transaction_effect (uid : string) (f : form) (st : app) :
  let txn :=
    Txn.make uid (f_type f) (parseFloat (f_amount f)) (f_category f)
      (f_date f) (trim (f_desc f)) in
  let st' := addTransaction parseFloat localeCompare uid f st in
  let T := calcTotals (transactions st) in
  let T' := calcTotals (transactions st') in
  transactions st' = transactions st ++ [txn] /\
  income T' = (if String.eqb (f_type f) "income"
               then (income T + parseFloat (f_amount f))%float
               else income T) /\
  expense T' = (if String.eqb (f_type f) "expense"
                then (expense T + parseFloat (f_amount f))%float
                else expense T) /\
  totalIncome (dom st') = income T' /\
  totalExpense (dom st') = expense T' /\
  totalBalance (dom st') = (income T' - expense T')%float.
Proof.
  intros txn st' T T'.
  assert (E : transactions st' = transactions st ++ [txn]).
  { unfold st'. rewrite addTransaction_store.
    apply refresh_store_transactions. }
  split; [exact E|].
  unfold T', T, calcTotals. rewrite E. cbn [income expense balance].
  rewrite !sum_amounts_last.
  split; [reflexivity|]. split; [reflexivity|].
  unfold st'. rewrite addTransaction_store.
  match goal with
  | |- context [refresh localeCompare ?s] =>
      destruct (refresh_summary localeCompare s) as (-> & -> & -> & _)
  end.
  unfold calcTotals, store, persist.
  cbn [income expense balance transactions set_storage set_transactions].
  rewrite !sum_amounts_last. repeat split; reflexivity.
Qed.

Lemma ids_filter i l :
  NoDup (ids l) ->
  NoDup (ids (filter (fun t => negb (String.eqb (Txn.id t) i)) l)).
Proof.
  unfold ids. induction l as [|t r IH]; simpl; intro H; trivial.
  inversion H as [|? ? Hn Hr]; subst.
  destruct (String.eqb (Txn.id t) i); simpl; auto.
  constructor; auto.
  intro Hin. apply Hn. apply in_map_iff in Hin.
  destruct Hin as (u & Hu & Hf). apply filter_In in Hf.
  apply in_map_iff. exists u. tauto.
Qed.

Lemma filter_one i l :
  NoDup (ids l) -> In i (ids l) ->
  S (List.length (filter (fun t => negb (String.eqb (Txn.id t) i)) l))
  = List.length l.
Proof.
  unfold ids. induction l as [|t r IH]; simpl; intros H Hin; [contradiction|].
  inversion H as [|? ? Hn Hr]; subst.
  destruct (String.eqb_spec (Txn.id t) i) as [E|N]; simpl.
  - f_equal. rewrite filter_absent; trivial.
    intros u Hu Eu. apply Hn. rewrite E, <- Eu. now apply in_map.
  - f_equal. apply IH; trivial. destruct Hin as [Hin|Hin]; [contradiction|].
    exact Hin.
Qed.

(** X9: as long as [uid] hands out ids no transaction carries, ids stay
    unique through additions and deletions, and then deleting the id of a
    listed transaction removes exactly one row. *)
Theorem unique_ids_kept (st : app) :
  NoDup (ids (transactions st)) ->
  (forall uid f,
      ~ In uid (ids (transactions st)) ->
      NoDup (ids (transactions
                    (addTransaction parseFloat localeCompare uid f st)))) /\
  (forall id,
      NoDup (ids (transactions (deleteTransaction localeCompare id st)))) /\
  (forall id,
      In id (ids (transactions st)) ->
      S (List.length (transactions (deleteTransaction localeCompare id st)))
      = List.length (transactions st)).
Proof.
  intro H. split; [|split].
  - intros uid f Hf. rewrite addTransaction_store, refresh_store_transactions.
    unfold ids. rewrite map_app. simpl.
    apply NoDup_app; [exact H | repeat constructor; intros [] |].
    intros x Hx [<-|[]]. now apply Hf.
  - intro id. rewrite deleteTransaction_transactions. now apply ids_filter.
  - intros id Hin. rewrite deleteTransaction_transactions.
    now apply filter_one.
Qed.

End Ledger.

Lemma unique_ids_kept_witness :
  S (List.length
       (transactions (deleteTransaction codeCompare "d3" (page month None))))
  = List.length month.
Proof.
  apply (unique_ids_kept parseWhole codeCompare (page month None)).
  - repeat constructor; simpl; intuition discriminate.
  - right. right. now left.
Defined.

(** ** The goal, set and cleared *)

Lemma setGoal_cases parseFloat name amount st :
  setGoal parseFloat name amount st
  = if String.eqb (trim name) "" || negb (gt (parseFloat amount) 0%float)
    then st
    else renderGoal
           (putGoal (Some (Goal.make (trim name) (parseFloat amount))) st).
Proof.
  unfold setGoal. cbv zeta. now rewrite <- orb_assoc, rejected_target.
Qed.

(** X10: of two goals set one after the other, the earlier one stands if
    the later is rejected; if the later is accepted and its bar gets a width
    that is a number, the outcome is that of setting the later goal alone. *)
Theorem last_goal_wins
    (parseFloat : string -> number) (name1 amount1 name2 amount2 : string)
    (st : app) :
  let rejected :=
    String.eqb (trim name2) "" || negb (gt (parseFloat amount2) 0%float) in
  (rejected = true ->
   setGoal parseFloat name2 amount2 (setGoal parseFloat name1 amount1 st)
   = setGoal parseFloat name1 amount1 st) /\
  (rejected = false ->
   PrimFloat.is_nan
     (goalBar_width (dom (setGoal parseFloat name2 amount2 st))) = false ->
   setGoal parseFloat name2 amount2 (setGoal parseFloat name1 amount1 st)
   = setGoal parseFloat name2 amount2 st).
Proof.
  cbv zeta.
  rewrite (setGoal_cases parseFloat name2 amount2).
  rewrite (setGoal_cases parseFloat name2 amount2 st).
  destruct (String.eqb (trim name2) ""
            || negb (gt (parseFloat amount2) 0%float));
    (split; [intro R | intros R _]); try discriminate R; trivial.
  rewrite setGoal_cases.
  destruct (String.eqb (trim name1) ""
            || negb (gt (parseFloat amount1) 0%float)); reflexivity.
Qed.

Lemma last_goal_wins_witness :
  setGoal parseWhole "Sepeda" "3000000"
    (setGoal parseWhole "Laptop" "10000000" (page salary_and_food None))
  = setGoal parseWhole "Sepeda" "3000000" (page salary_and_food None).
Proof.
  apply (last_goal_wins parseWhole "Laptop" "10000000" "Sepeda" "3000000"
           (page salary_and_food None)); reflexivity.
Defined.

(** X11: [clearGoal] leaves no goal in memory or in storage and hides the
    goal panel, whatever goal was set before; it keeps the transactions and
    their stored copy, and clearing twice is clearing once. *)
Theorem clear_goal_effect
    (parseFloat : string -> number) (name amount : string) (st : app) :
  let st' := clearGoal (setGoal parseFloat name amount st) in
  savingsGoal st' = None /\
  sft_goal (storage st') = None /\
  savingsDisplay_hidden (dom st') = true /\
  transactions st' = transactions st /\
  sft_transactions (storage st') = sft_transactions (storage st) /\
  clearGoal st' = st'.
Proof.
  cbv zeta. rewrite setGoal_cases.
  destruct (String.eqb (trim name) ""
            || negb (gt (parseFloat amount) 0%float));
    destruct st as [? ? ? ? []]; repeat split; reflexivity.
Qed.

(** ** The small handlers *)

(** X12: closing the alert hides it and touches nothing else, and it is not
    remembered: the next refresh shows the page exactly as it would have
    without the closing. *)
Theorem alert_close_not_remembered
    (localeCompare : string -> string -> Z) (st : app) :
  alertBanner_visible (dom (alertClose st)) = false /\
  transactions (alertClose st) = transactions st /\
  storage (alertClose st) = storage st /\
  savingsGoal (alertClose st) = savingsGoal st /\
  balanceBar_width (dom (alertClose st)) = balanceBar_width (dom st) /\
  txnBody (dom (alertClose st)) = txnBody (dom st) /\
  refresh localeCompare (alertClose st) = refresh localeCompare st.
Proof.
  repeat split; reflexivity.
Qed.

(** X13: changing the filter redraws the table only: the rows are those of
    the table under 'all' that have the chosen type, in the same order; the
    data, the summary, the chart and the goal panel stay, and of two changes
    in a row the later one decides. *)
Theorem filter_change_effect
    (localeCompare : string -> string -> Z) (value value0 : string)
    (st : app) :
  let st' := filterChange localeCompare value st in
  let all := txnBody (dom (filterChange localeCompare "all" st)) in
  txnBody (dom st')
  = (if String.eqb value "all" then all else filter (has_type value) all) /\
  (tableEmpty_visible (dom st') = true <-> txnBody (dom st') = []) /\
  transactions st' = transactions st /\
  storage st' = storage st /\
  savingsGoal st' = savingsGoal st /\
  pieChart st' = pieChart st /\
  totalBalance (dom st') = totalBalance (dom st) /\
  alertBanner_visible (dom st') = alertBanner_visible (dom st) /\
  filterChange localeCompare value (filterChange localeCompare value0 st)
  = st'.
Proof.
  cbv zeta. unfold filterChange. rewrite !renderTable_writes.
  destruct st as [txs g chart sto []]. cbn -[tableRows Nat.eqb].
  repeat split; try reflexivity.
  - unfold tableRows. cbn [String.eqb Ascii.eqb Bool.eqb negb].
    destruct (String.eqb value "all"); reflexivity.
  - intro H. apply Nat.eqb_eq in H.
    now destruct (tableRows localeCompare value txs).
  - intros ->. reflexivity.
Qed.

(** ** The theme *)

(** X14: a toggle flips the mode and stores the name of the mode now shown;
    two toggles bring the first mode back.  The transactions, the goal and
    their stored copies are not touched, nor are the summary, the table and
    the goal panel: only the charts are redrawn, so that the page's record
    can differ in the chart's empty state alone. *)
Theorem toggle_theme_flips (s : themed) :
  let s1 := toggleTheme s in
  let s2 := toggleTheme s1 in
  body_light_mode s1 = negb (body_light_mode s) /\
  sft_theme s1
  = Some (if body_light_mode s1 then "light" else "dark")%string /\
  body_light_mode s2 = body_light_mode s /\
  sft_theme s2
  = Some (if body_light_mode s then "light" else "dark")%string /\
  transactions (tracker s1) = transactions (tracker s) /\
  savingsGoal (tracker s1) = savingsGoal (tracker s) /\
  storage (tracker s1) = storage (tracker s) /\
  write_pieEmpty false (dom (tracker s1))
  = write_pieEmpty false (dom (tracker s)).
Proof.
  cbv zeta.
  destruct (renderPieChart_frame (tracker s)) as (F1 & F2 & F3 & _).
  assert (D : write_pieEmpty false (dom (renderPieChart (tracker s)))
              = write_pieEmpty false (dom (tracker s))).
  { rewrite renderPieChart_writes. now destruct (tracker s) as [? ? ? ? []]. }
  destruct s as [[] th tr]; cbn -[renderPieChart] in *;
    repeat split; trivial.
Qed.

(** X15: at start-up the stored preference decides: light mode exactly when
    'light' is stored, dark mode for every other value; a missing or empty
    preference is stored as 'dark', any other stored value is kept. *)
Theorem load_theme_default (s : themed) :
  let s' := loadTheme s in
  (body_light_mode s' = true <-> sft_theme s = Some "light"%string) /\
  (sft_theme s = None \/ sft_theme s = Some ""%string ->
   sft_theme s' = Some "dark"%string /\ body_light_mode s' = false) /\
  (forall v, sft_theme s = Some v -> v <> ""%string -> sft_theme s' = Some v)
  /\ tracker s' = tracker s.
Proof.
  cbv zeta. unfold loadTheme, applyTheme. cbn [body_light_mode sft_theme tracker].
  destruct (sft_theme s) as [v|].
  - destruct (String.eqb_spec v "") as [->|N].
    + repeat split; try discriminate; try reflexivity.
      intros v E. injection E as <-. now intros [].
    + repeat split; try reflexivity.
      * intro H. apply String.eqb_eq in H. now subst.
      * intro H. injection H as ->. reflexivity.
      * destruct H as [H|H]; [discriminate | injection H as ->; now contradiction N].
      * destruct H as [H|H]; [discriminate | injection H as ->; now contradiction N].
      * intros w E _. exact E.
  - repeat split; try discriminate; try reflexivity.
Qed.

(** ** The goal and the transactions do not interfere *)

Section GoalAndActions.

Variable parseFloat : string -> number.
Variable localeCompare : string -> string -> Z.

Ltac steps :=
  let st := fresh "st" in
  let g := fresh "g" in
  intro st; rewrite ?renderTable_writes, ?renderPieChart_writes;
  destruct st as [? g ? ? []]; try destruct g; reflexivity.

Lemma putGoal_summary g : forall st,
  putGoal g (renderSummary st) = renderSummary (putGoal g st).
Proof. steps. Qed.

Lemma putGoal_table g : forall st,
  putGoal g (renderTable localeCompare st)
  = renderTable localeCompare (putGoal g st).
Proof. steps. Qed.

Lemma putGoal_pie g : forall st,
  putGoal g (renderPieChart st) = renderPieChart (putGoal g st).
Proof. steps. Qed.

Lemma putGoal_store g l : forall st,
  putGoal g (store l st) = store l (putGoal g st).
Proof. steps. Qed.

Lemma putGoal_absorb g : forall st,
  renderGoal (putGoal (Some g) (renderGoal st))
  = renderGoal (putGoal (Some g) st).
Proof. steps. Qed.

Lemma clear_absorb : forall st,
  goal_texts_blanked (renderGoal (putGoal None (renderGoal st)))
  = goal_texts_blanked (renderGoal (putGoal None st)).
Proof. steps. Qed.

Lemma putGoal_transactions g st :
  transactions (renderGoal (putGoal g st)) = transactions st.
Proof. destruct g, st as [? ? ? ? []]; reflexivity. Qed.

Lemma refresh_goal_first l st :
  refresh localeCompare (store l (renderGoal st))
  = refresh localeCompare (store l st).
Proof.
  unfold refresh, renderCharts.
  rewrite <- !pie_goal, <- !table_goal, <- !summary_goal.
  now rewrite goal_absorb.
Qed.

Lemma goal_after_refresh g l st :
  renderGoal (putGoal (Some g) (refresh localeCompare (store l st)))
  = refresh localeCompare (store l (renderGoal (putGoal (Some g) st))).
Proof.
  rewrite refresh_goal_first. unfold refresh, renderCharts.
  rewrite putGoal_absorb, putGoal_pie, putGoal_table, putGoal_summary.
  now rewrite putGoal_store.
Qed.

Lemma clear_after_refresh l st :
  goal_texts_blanked
    (renderGoal (putGoal None (refresh localeCompare (store l st))))
  = goal_texts_blanked
      (refresh localeCompare (store l (renderGoal (putGoal None st)))).
Proof.
  rewrite refresh_goal_first. unfold refresh, renderCharts.
  rewrite clear_absorb, putGoal_pie, putGoal_table, putGoal_summary.
  now rewrite putGoal_store.
Qed.

Lemma refresh_no_goal st :
  savingsGoal st = None ->
  savingsDisplay_hidden (dom (refresh localeCompare st)) = true.
Proof.
  intro H. unfold refresh, renderCharts.
  set (s := renderPieChart (renderTable localeCompare (renderSummary st))).
  assert (E : savingsGoal s = None).
  { unfold s.
    destruct (renderPieChart_frame (renderTable localeCompare (renderSummary st)))
      as (_ & -> & _).
    destruct (renderTable_frame localeCompare (renderSummary st))
      as (_ & -> & _).
    exact H. }
  unfold renderGoal. now rewrite E.
Qed.

Lemma perform_after_clear st a :
  goal_texts_blanked
    (perform parseFloat localeCompare (renderGoal (putGoal None st)) a)
  = goal_texts_blanked
      (renderGoal (putGoal None (perform parseFloat localeCompare st a))).
Proof.
  destruct a as [uid f|id].
  - change (perform parseFloat localeCompare ?s (Add uid f))
      with (addTransaction parseFloat localeCompare uid f s).
    rewrite !addTransaction_store, putGoal_transactions.
    symmetry. apply clear_after_refresh.
  - change (perform parseFloat localeCompare ?s (Delete id))
      with (deleteTransaction localeCompare id s).
    rewrite !deleteTransaction_store, putGoal_transactions.
    symmetry. apply clear_after_refresh.
Qed.

Lemma perform_after_goal g st a :
  perform parseFloat localeCompare (renderGoal (putGoal (Some g) st)) a
  = renderGoal (putGoal (Some g) (perform parseFloat localeCompare st a)).
Proof.
  destruct a as [uid f|id].
  - change (perform parseFloat localeCompare ?s (Add uid f))
      with (addTransaction parseFloat localeCompare uid f s).
    rewrite !addTransaction_store, putGoal_transactions.
    symmetry. apply goal_after_refresh.
  - change (perform parseFloat localeCompare ?s (Delete id))
      with (deleteTransaction localeCompare id s).
    rewrite !deleteTransaction_store, putGoal_transactions.
    symmetry. apply goal_after_refresh.
Qed.

(** X16: setting the goal and adding or deleting a transaction can be done
    in either order when the page ends with widths that are numbers: the
    page, the data and the stored copies come out the same.  Clearing the
    goal and an action can be swapped as well, up to the goal panel's texts
    and bar, the panel being hidden either way. *)
Theorem goal_and_action_commute
    (name amount : string) (st : app) (a : action) :
  (bars_drawn
     (perform parseFloat localeCompare (setGoal parseFloat name amount st) a)
   = true ->
   perform parseFloat localeCompare (setGoal parseFloat name amount st) a
   = setGoal parseFloat name amount (perform parseFloat localeCompare st a)) /\
  (PrimFloat.is_nan
     (balanceBar_width
        (dom (perform parseFloat localeCompare (clearGoal st) a))) = false ->
   goal_texts_blanked (perform parseFloat localeCompare (clearGoal st) a)
   = goal_texts_blanked (clearGoal (perform parseFloat localeCompare st a))) /\
  savingsDisplay_hidden
    (dom (perform parseFloat localeCompare (clearGoal st) a)) = true /\
  savingsDisplay_hidden
    (dom (clearGoal (perform parseFloat localeCompare st a))) = true.
Proof.
  split; [|split; [|split]].
  - intros _. rewrite !setGoal_cases.
    destruct (String.eqb (trim name) ""
              || negb (gt (parseFloat amount) 0%float)); trivial.
    apply perform_after_goal.
  - intros _. apply perform_after_clear.
  - destruct (perform_store parseFloat localeCompare (clearGoal st) a)
      as [l ->].
    apply refresh_no_goal.
    destruct st as [? ? ? ? []]. reflexivity.
  - destruct (perform parseFloat localeCompare st a) as [? ? ? ? []].
    reflexivity.
Qed.

End GoalAndActions.

Lemma goal_and_action_commute_witness :
  perform parseWhole codeCompare
    (setGoal parseWhole "Laptop" "10000000" (page month None)) (Delete "d3")
  = setGoal parseWhole "Laptop" "10000000"
      (perform parseWhole codeCompare (page month None) (Delete "d3")).
Proof.
  apply (goal_and_action_commute parseWhole codeCompare "Laptop" "10000000"
           (page month None) (Delete "d3")).
  vm_compute. reflexivity.
Defined.

(** ** The page is drawn from the data *)

(** X17: when a refresh leaves widths that are numbers, what it writes
    depends on the transactions, the goal and the chosen filter alone: two
    states that agree on these (and, while no goal is set, on the hidden
    texts of the goal panel) come out with the same summary, table, goal
    panel and empty states, and with the same labels, values and slice
    colours in the chart. *)
Theorem page_drawn_from_data
    (localeCompare : string -> string -> Z) (st1 st2 : app) :
  transactions st1 = transactions st2 ->
  savingsGoal st1 = savingsGoal st2 ->
  filterType (dom st1) = filterType (dom st2) ->
  (savingsGoal st1 = None ->
   goalLabel (dom st1) = goalLabel (dom st2) /\
   goalProgress (dom st1) = goalProgress (dom st2) /\
   goalBar_width (dom st1) = goalBar_width (dom st2) /\
   goalNote (dom st1) = goalNote (dom st2)) ->
  bars_drawn (refresh localeCompare st1) = true ->
  let st1' := refresh localeCompare st1 in
  let st2' := refresh localeCompare st2 in
  dom st1' = dom st2' /\
  option_map labels (pieChart st1') = option_map labels (pieChart st2') /\
  option_map data (pieChart st1') = option_map data (pieChart st2') /\
  option_map backgroundColor (pieChart st1')
  = option_map backgroundColor (pieChart st2').
Proof.
  intros Ht Hg Hf Hn _. cbv zeta.
  assert (E : dom (refresh localeCompare st1) = dom (refresh localeCompare st2)
              /\ pieChart (refresh localeCompare st1)
                 = pieChart (refresh localeCompare st2)).
  { revert Ht Hg Hf Hn. unfold refresh, renderCharts.
    rewrite !renderPieChart_writes, !renderTable_writes.
    destruct st1
      as [t1 g1 c1 s1 [a1 a2 a3 a4 a5 a6 a7 a8 a9 a10 a11 a12 a13 a14]].
    destruct st2
      as [t2 g2 c2 s2 [b1 b2 b3 b4 b5 b6 b7 b8 b9 b10 b11 b12 b13 b14]].
    cbn [transactions savingsGoal storage dom filterType goalLabel
         goalProgress goalBar_width goalNote].
    intros <- <- <- H.
    destruct g1 as [g|]; [split; reflexivity|].
    destruct (H eq_refl) as (<- & <- & <- & <-). split; reflexivity. }
  destruct E as [-> ->]. repeat split; reflexivity.
Qed.

Lemma page_drawn_from_data_witness :
  dom (refresh codeCompare (page month (Some laptop)))
  = dom (refresh codeCompare
           (alertClose
              (filterChange codeCompare "all" (page month (Some laptop))))).
Proof.
  apply (page_drawn_from_data codeCompare (page month (Some laptop))
           (alertClose
              (filterChange codeCompare "all" (page month (Some laptop)))));
    try reflexivity.
  discriminate.
Defined.

(** ** Sorting and filtering change places *)

Section SortFilter.

Variable A : Type.
Variable cmp : A -> A -> Z.
Variable keep : A -> bool.
Hypothesis cmp_total : forall a b, (0 < cmp a b)%Z -> (cmp b a <= 0)%Z.
Hypothesis cmp_trans :
  forall a b c, (cmp a b <= 0)%Z -> (cmp b c <= 0)%Z -> (cmp a c <= 0)%Z.

Lemma insert_first x l :
  Forall (fun y => (cmp x y <= 0)%Z) l -> insert cmp x l = x :: l.
Proof.
  destruct l as [|y r]; simpl; trivial.
  intro H. inversion H as [|? ? Hy Hr]; subst.
  apply Z.leb_le in Hy. now rewrite Hy.
Qed.

Lemma Forall_filter_keep (P : A -> Prop) l :
  Forall P l -> Forall P (filter keep l).
Proof.
  induction 1 as [|z r Hz F IH]; simpl; [constructor|].
  destruct (keep z); [constructor|]; trivial.
Qed.

Lemma filter_insert x l :
  StronglySorted (fun a b => (cmp a b <= 0)%Z) l ->
  filter keep (insert cmp x l)
  = if keep x then insert cmp x (filter keep l) else filter keep l.
Proof.
  induction 1 as [|y r Hs IH Hy]; simpl.
  - now destruct (keep x).
  - destruct (Z.leb_spec (cmp x y) 0) as [L|G].
    + change (filter keep (x :: y :: r))
        with (if keep x then x :: filter keep (y :: r)
              else filter keep (y :: r)).
      destruct (keep x); trivial.
      symmetry. apply insert_first. apply Forall_filter_keep.
      constructor; trivial. revert Hy. apply Forall_impl.
      intros z Hz. now apply cmp_trans with y.
    + cbn [filter]. rewrite IH.
      destruct (keep y), (keep x); trivial.
      simpl. apply Z.leb_gt in G. now rewrite G.
Qed.

Lemma filter_sort l :
  filter keep (sort cmp l) = sort cmp (filter keep l).
Proof.
  induction l as [|x r IH]; simpl; trivial.
  rewrite filter_insert by now apply sort_sorted.
  rewrite IH. now destruct (keep x).
Qed.

End SortFilter.

Section Deleting.

Variable localeCompare : string -> string -> Z.
Hypothesis Hc : collation localeCompare.

Lemma tableRows_filter (keep : Txn.t -> bool) flt txs :
  tableRows localeCompare flt (filter keep txs)
  = filter keep (tableRows localeCompare flt txs).
Proof.
  unfold tableRows.
  rewrite <- (filter_sort _ (compareRows localeCompare) keep
                (compareRows_total localeCompare Hc)
                (compareRows_trans localeCompare Hc)).
  destruct (negb (String.eqb flt "all")); trivial.
  rewrite !filter_twice. apply filter_ext. intro t. apply andb_comm.
Qed.

Lemma tableRows_by_type flt txs :
  tableRows localeCompare flt txs
  = if String.eqb flt "all" then sort (compareRows localeCompare) txs
    else sort (compareRows localeCompare) (filter (has_type flt) txs).
Proof.
  unfold tableRows. destruct (String.eqb flt "all"); simpl; trivial.
  apply (filter_sort _ (compareRows localeCompare) (has_type flt)
           (compareRows_total localeCompare Hc)
           (compareRows_trans localeCompare Hc)).
Qed.

End Deleting.

Lemma refresh_table localeCompare st :
  txnBody (dom (refresh localeCompare st))
  = tableRows localeCompare (filterType (dom st)) (transactions st) /\
  filterType (dom (refresh localeCompare st)) = filterType (dom st).
Proof.
  unfold refresh, renderCharts.
  destruct (renderGoal_frame
              (renderPieChart (renderTable localeCompare (renderSummary st))))
    as (_ & _ & _ & _ & _ & _ & _ & _ & _ & -> & _).
  destruct (renderPieChart_frame (renderTable localeCompare (renderSummary st)))
    as (_ & _ & _ & _ & _ & _ & _ & _ & -> & _).
  split.
  - unfold renderTable.
    change (filterType (dom (renderSummary st))) with (filterType (dom st)).
    change (transactions (renderSummary st)) with (transactions st).
    now destruct (tableRows localeCompare (filterType (dom st))
                    (transactions st)).
  - unfold renderPieChart, renderGoal, renderTable.
    destruct st as [txs [g|] chart sto []]; cbn -[tableRows expenseByCategory];
    repeat match goal with
           | |- context [if ?b then _ else _] => destruct b
           end; reflexivity.
Qed.

(** X18: for a collation [localeCompare], deleting an id takes the rows
    carrying it out of the table and leaves every other row where it was,
    under the filter in force, which stays. *)
Theorem delete_takes_rows_out
    (localeCompare : string -> string -> Z) (id : string) (st : app) :
  collation localeCompare ->
  let st' := deleteTransaction localeCompare id (refresh localeCompare st) in
  txnBody (dom st')
  = filter (fun t => negb (String.eqb (Txn.id t) id))
      (txnBody (dom (refresh localeCompare st))) /\
  filterType (dom st') = filterType (dom st).
Proof.
  intros Hc st'.
  destruct (refresh_table localeCompare st) as [Eb Ef].
  destruct (refresh_frame localeCompare st) as (Et & _).
  unfold st', deleteTransaction.
  match goal with
  | |- context [refresh localeCompare ?s] =>
      destruct (refresh_table localeCompare s) as [-> ->]
  end.
  cbn [persist set_storage set_transactions dom transactions].
  rewrite Ef, Eb, Et. split; trivial.
  now apply tableRows_filter.
Qed.

Lemma delete_takes_rows_out_witness :
  map Txn.id
    (txnBody (dom (deleteTransaction codeCompare "d3"
                     (refresh codeCompare (page month None)))))
  = ["d4"; "d2"; "d1"]%string.
Proof.
  destruct (delete_takes_rows_out codeCompare "d3" (page month None)
              codeCompare_collation) as [E _].
  rewrite E. reflexivity.
Defined.

(** X19: for a collation [localeCompare], the rows under a filter other than
    'all' are the transactions of that type alone, sorted: filtering before
    sorting gives the table the script gets by sorting first. *)
Theorem table_filter_before_sort
    (localeCompare : string -> string -> Z) (st : app) :
  collation localeCompare ->
  filterType (dom st) <> "all"%string ->
  txnBody (dom (renderTable localeCompare st))
  = sort (compareRows localeCompare)
      (filter (has_type (filterType (dom st))) (transactions st)).
Proof.
  intros Hc Hf.
  transitivity (tableRows localeCompare (filterType (dom st))
                  (transactions st)).
  - unfold renderTable.
    now destruct (tableRows localeCompare (filterType (dom st))
                    (transactions st)).
  - rewrite tableRows_by_type by trivial.
    apply String.eqb_neq in Hf. now rewrite Hf.
Qed.

Lemma table_filter_before_sort_witness :
  txnBody (dom (renderTable codeCompare
                  (filterChange codeCompare "expense" (page month None))))
  = sort (compareRows codeCompare) (filter (has_type "expense") month).
Proof.
  apply (table_filter_before_sort codeCompare
           (filterChange codeCompare "expense" (page month None))
           codeCompare_collation).
  discriminate.
Defined.

(** ** The slices of the chart *)

Lemma group_step_number g t :
  Forall positive_number (values g) ->
  ~ In (Txn.category t) Object_prototype ->
  gt (Txn.amount t) 0%float = true ->
  plus (or_zero (get g (Txn.category t))) (Txn.amount t)
  = Num (total_at g (Txn.category t) + Txn.amount t)%float /\
  gt (total_at g (Txn.category t) + Txn.amount t)%float 0%float = true.
Proof.
  intros Hg Hc Ht. rewrite get_not_member by trivial. unfold total_at.
  destruct (own g (Txn.category t)) as [v|] eqn:E.
  - assert (P : positive_number v).
    { apply own_In in E. rewrite Forall_forall in Hg. apply Hg.
      change v with (snd (Txn.category t, v)). now apply in_map. }
    destruct v as [|n|m|m l]; simpl in P; try contradiction.
    unfold or_zero. simpl. rewrite (pos_truthy n P). simpl.
    split; [reflexivity | now apply sum_pos].
  - split; [reflexivity | now apply zero_sum_pos].
Qed.

Lemma group_step_running g t c :
  NoDup (keys g) ->
  Forall positive_number (values g) ->
  ~ In (Txn.category t) Object_prototype ->
  gt (Txn.amount t) 0%float = true ->
  total_at (group_step g t) c
  = if has_category c t then (total_at g c + Txn.amount t)%float
    else total_at g c.
Proof.
  intros Hn Hg Hc Ht. unfold group_step, has_category.
  destruct (group_step_number g t Hg Hc Ht) as [-> _].
  unfold total_at at 1.
  destruct (String.eqb_spec (Txn.category t) c) as [<-|N].
  - rewrite own_set_same; trivial. now apply not_member_not_proto.
  - now rewrite own_set_other.
Qed.

Lemma group_fold_running l : forall g c,
  NoDup (keys g) ->
  Forall positive_number (values g) ->
  Forall (fun t => gt (Txn.amount t) 0%float = true /\
                   ~ In (Txn.category t) Object_prototype) l ->
  NoDup (keys (fold_left group_step l g)) /\
  Forall positive_number (values (fold_left group_step l g)) /\
  total_at (fold_left group_step l g) c
  = fold_left (fun s t => (s + Txn.amount t)%float)
      (filter (has_category c) l) (total_at g c).
Proof.
  induction l as [|t r IH]; intros g c Hn Hg Hl; simpl; [now repeat split|].
  inversion Hl as [|? ? [Ht Hc] Hr]; subst.
  assert (Hn' : NoDup (keys (group_step g t)))
    by (unfold group_step; now apply keys_set_NoDup).
  assert (Hg' : Forall positive_number (values (group_step g t))).
  { unfold group_step. apply values_set_Forall; trivial.
    destruct (group_step_number g t Hg Hc Ht) as [-> P]. exact P. }
  destruct (IH (group_step g t) c Hn' Hg' Hr) as (I1 & I2 & I3).
  split; [exact I1|]. split; [exact I2|].
  rewrite I3, group_step_running by trivial.
  now destruct (has_category c t).
Qed.

(** X20: when every expense amount is greater than zero and no expense
    category names a member of [Object.prototype], each slice of the chart is
    the sum, from 0 and in list order, of the amounts of the expenses of its
    category, and it is greater than zero. *)
Theorem slice_is_category_sum (st : app) (chart : pie) :
  Forall (fun t => gt (Txn.amount t) 0%float = true /\
                   ~ In (Txn.category t) Object_prototype)
    (filter (has_type "expense") (transactions st)) ->
  pieChart (renderPieChart st) = Some chart ->
  forall c v,
    In (c, v) (combine (labels chart) (data chart)) ->
    v = Num (sum_amounts
               (filter (has_category c)
                  (filter (has_type "expense") (transactions st)))) /\
    positive_number v.
Proof.
  intros Hpos Hchart c v Hin.
  set (expenses := filter (has_type "expense") (transactions st)) in *.
  set (grouped := expenseByCategory (transactions st)).
  assert (E : combine (labels chart) (data chart) = grouped).
  { revert Hchart. unfold renderPieChart. fold grouped.
    destruct (List.length (keys grouped) =? 0)%nat; simpl; [discriminate|].
    intro H. injection H as <-. apply combine_keys_values. }
  rewrite E in Hin.
  destruct (group_fold_running expenses [] c (NoDup_nil _) (Forall_nil _) Hpos)
    as (Nd & P & R).
  change (fold_left group_step expenses []) with grouped in Nd, P, R.
  assert (Pv : positive_number v).
  { rewrite Forall_forall in P. apply P.
    change v with (snd (c, v)). now apply in_map. }
  split; [|exact Pv].
  apply (In_own grouped c v Nd) in Hin.
  unfold total_at in R. rewrite Hin in R.
  destruct v as [|n|m|m l]; simpl in Pv; try contradiction.
  f_equal. exact R.
Qed.

Lemma slice_is_category_sum_witness :
  Num 3500000%float
  = Num (sum_amounts
           (filter (has_category "Makanan")
              (filter (has_type "expense") month))) /\
  positive_number (Num 3500000%float).
Proof.
  apply (slice_is_category_sum (page month None) month_chart);
    [|reflexivity | now left].
  repeat constructor; simpl; intuition discriminate.
Defined.

(** ** Categories the form offers *)

(** X21: the category control never holds a value twice, whatever the type;
    and when every expense carries a category the control offers for
    expenses, the chart has at most 21 slices, all of them offered
    categories. *)
Theorem slices_of_offered_categories (st : app) (chart : pie) :
  (forall t, In t (transactions st) -> Txn.type t = "expense"%string ->
             In (Txn.category t) (populateCategories "expense")) ->
  pieChart (renderPieChart st) = Some chart ->
  (forall type, NoDup (populateCategories type)) /\
  incl (labels chart) (populateCategories "expense") /\
  List.length (labels chart) <= 21 /\
  List.length (data chart) <= 21.
Proof.
  intros Hoff Hchart.
  assert (Nd : forall type, NoDup (populateCategories type)).
  { intro type. unfold populateCategories, CATEGORIES.
    destruct (String.eqb type ""); [repeat constructor; intros []|].
    destruct (String.eqb type "income");
      [|destruct (String.eqb type "expense")];
      repeat (constructor; [simpl; intuition discriminate|]); constructor. }
  split; [exact Nd|].
  set (grouped := expenseByCategory (transactions st)).
  assert (E : labels chart = keys grouped /\ data chart = values grouped).
  { revert Hchart. unfold renderPieChart. fold grouped.
    destruct (List.length (keys grouped) =? 0)%nat; simpl; [discriminate|].
    intro H. injection H as <-. split; reflexivity. }
  destruct E as [El Ed].
  assert (I : incl (labels chart) (populateCategories "expense")).
  { rewrite El. unfold grouped.
    intros c Hc. apply keys_In in Hc. destruct Hc as (_ & t & Ht & <-).
    apply filter_In in Ht.
    destruct Ht as [Ht Hty]. apply Hoff; trivial.
    now apply String.eqb_eq in Hty. }
  assert (L : List.length (labels chart) <= 21).
  { change 21 with (List.length (populateCategories "expense")).
    apply NoDup_incl_length; trivial.
    rewrite El. apply keys_NoDup. }
  split; [exact I|]. split; [exact L|].
  rewrite Ed. unfold values. rewrite length_map.
  rewrite El in L. unfold keys in L. now rewrite length_map in L.
Qed.

Lemma slices_of_offered_categories_witness :
  incl (labels month_chart) (populateCategories "expense").
Proof.
  apply (slices_of_offered_categories (page month None) month_chart);
    [|reflexivity].
  intros t [<-|[<-|[<-|[<-|[]]]]] E; try discriminate E;
    repeat (try (left; reflexivity); right).
Defined.
